(** * scripts/scrape-unicode.py: the table resolution and cell extraction

    A shallow embedding of the scraping script.  The parsed page is an
    element tree (lxml's [Element]: tag, attrib, text, children); an element
    inside a document is kept with the chain of its ancestors, which
    gives [getparent] and [getnext].  Python strings are lists
    of code points.  Every Python exception the script can run into is a
    constructor of [exn]; an uncaught exception ends the run. *)

From Stdlib Require Import List NArith Bool String Ascii Lia.
Import ListNotations.

Set Warnings "-register-all".

Local Open Scope N_scope.
Local Open Scope list_scope.

(** ** Python strings *)

Module PyStr.

(** A [str] is its sequence of code points. *)
Definition pystr := list N.

(** A literal of the script, written in ASCII. *)
Definition lit (s : string) : pystr :=
  map N_of_ascii (list_ascii_of_string s).

Fixpoint eqb (a b : pystr) : bool :=
  match a, b with
  | [], [] => true
  | x :: a', y :: b' => (x =? y) && eqb a' b'
  | _, _ => false
  end.

(** [Py_UNICODE_ISSPACE]: the code points [str.strip()] removes. *)
Definition isspace (c : N) : bool :=
  ((9 <=? c) && (c <=? 13)) || ((28 <=? c) && (c <=? 32))
  || (c =? 133) || (c =? 160) || (c =? 5760)
  || ((8192 <=? c) && (c <=? 8202))
  || (c =? 8232) || (c =? 8233) || (c =? 8239) || (c =? 8287)
  || (c =? 12288).

Fixpoint lstrip (s : pystr) : pystr :=
  match s with
  | c :: s' => if isspace c then lstrip s' else s
  | [] => []
  end.

Definition rstrip (s : pystr) : pystr := rev (lstrip (rev s)).

(** [s.strip()] *)
Definition strip (s : pystr) : pystr := rstrip (lstrip s).

(** [s.split(sep)] for a one-character separator: the fields between the
    occurrences of [sep], always at least one field. *)
Fixpoint split (sep : N) (s : pystr) : list pystr :=
  match s with
  | [] => [[]]
  | c :: s' =>
      if c =? sep then [] :: split sep s'
      else match split sep s' with
           | w :: ws => (c :: w) :: ws
           | [] => [[c]]
           end
  end.

Fixpoint startswith (p s : pystr) : bool :=
  match p, s with
  | [], _ => true
  | x :: p', y :: s' => (x =? y) && startswith p' s'
  | _ :: _, [] => false
  end.

(** [needle in hay] *)
Fixpoint contains (needle hay : pystr) : bool :=
  startswith needle hay
  || match hay with
     | [] => false
     | _ :: hay' => contains needle hay'
     end.

(** [sep.join(parts)] *)
Fixpoint join (sep : pystr) (parts : list pystr) : pystr :=
  match parts with
  | [] => []
  | [p] => p
  | p :: ps => p ++ sep ++ join sep ps
  end.

(** *** [str.title()]

    CPython's [do_title]: a character that follows a cased character is
    lower-cased, any other character is title-cased, both with the full
    (possibly multi-character) case mappings, and "cased" is read off the
    input character.  The case tables below hold the Basic Latin block in
    full and, beyond it, U+01F0 (small j with caron, whose title-case
    mapping is the two code points U+004A U+030C); every other code point
    is taken as caseless, which is what the tables of CPython say of the
    digits, punctuation and symbols. *)

Definition is_upper_ascii (c : N) : bool := (65 <=? c) && (c <=? 90).
Definition is_lower_ascii (c : N) : bool := (97 <=? c) && (c <=? 122).

Definition is_cased (c : N) : bool :=
  is_upper_ascii c || is_lower_ascii c || (c =? 496).

Definition to_lower_full (c : N) : pystr :=
  if is_upper_ascii c then [c + 32] else [c].

Definition to_title_full (c : N) : pystr :=
  if is_lower_ascii c then [c - 32]
  else if c =? 496 then [74; 780]
  else [c].

Fixpoint do_title (previous_is_cased : bool) (s : pystr) : pystr :=
  match s with
  | [] => []
  | c :: s' =>
      (if previous_is_cased then to_lower_full c else to_title_full c)
        ++ do_title (is_cased c) s'
  end.

(** [s.title()] *)
Definition title (s : pystr) : pystr := do_title false s.

Definition is_ascii (c : N) : bool := c <? 128.

End PyStr.

Import PyStr.

(** ** Exceptions and results *)

Inductive exn : Type :=
| IndexError
| AttributeError
| AssertionError
| KeyError.

Inductive result (A : Type) : Type :=
| Ok (a : A)
| Raise (e : exn).

Arguments Ok {A} a.
Arguments Raise {A} e.

Definition bind {A B : Type} (m : result A) (k : A -> result B) : result B :=
  match m with
  | Ok a => k a
  | Raise e => Raise e
  end.

Declare Scope py_scope.
Delimit Scope py_scope with py.
Notation "x <- m ;; k" := (bind m (fun x => k))
  (at level 100, m at next level, right associativity) : py_scope.
Notation "' p <- m ;; k" := (bind m (fun p => k))
  (at level 100, p pattern, m at next level, right associativity) : py_scope.
Local Open Scope py_scope.

(** [assert cond] *)
Definition assert (cond : bool) : result unit :=
  if cond then Ok tt else Raise AssertionError.

(** [l[i]] for [i >= 0] *)
Definition getitem {A : Type} (l : list A) (i : nat) : result A :=
  match nth_error l i with
  | Some a => Ok a
  | None => Raise IndexError
  end.

(** [l[-1]] *)
Definition getlast {A : Type} (l : list A) : result A :=
  match rev l with
  | a :: _ => Ok a
  | [] => Raise IndexError
  end.

(** [not x] for a value that is [None] or a string *)
Definition falsy (x : option pystr) : bool :=
  match x with
  | None => true
  | Some [] => true
  | Some (_ :: _) => false
  end.

(** [x.strip()] for a value that is [None] or a string *)
Definition strip_m (x : option pystr) : result pystr :=
  match x with
  | Some s => Ok (strip s)
  | None => Raise AttributeError
  end.

(** ** The parsed page *)

Module Dom.

(** An lxml element: [tag], [attrib], [text] (the text before the first
    child, [None] when there is none) and the child elements in order.
    Comments and tails are left out: the script reads neither. *)
Inductive elem : Type :=
| Elem (tag : pystr) (attrib : list (pystr * pystr)) (text : option pystr)
       (children : list elem).

Definition tag (e : elem) : pystr := let 'Elem t _ _ _ := e in t.
Definition attrib (e : elem) : list (pystr * pystr) := let 'Elem _ a _ _ := e in a.
Definition text (e : elem) : option pystr := let 'Elem _ _ x _ := e in x.
Definition children (e : elem) : list elem := let 'Elem _ _ _ c := e in c.

(** [e.attrib.get(k)] *)
Fixpoint lookup (k : pystr) (a : list (pystr * pystr)) : option pystr :=
  match a with
  | [] => None
  | (k', v) :: a' => if eqb k' k then Some v else lookup k a'
  end.

(** [e.attrib[k]] *)
Definition attrib_getitem (e : elem) (k : pystr) : result pystr :=
  match lookup k (attrib e) with
  | Some v => Ok v
  | None => Raise KeyError
  end.

Definition has_tag (t : pystr) (e : elem) : bool := eqb (tag e) t.

Definition has_attr (k : pystr) (e : elem) : bool :=
  match lookup k (attrib e) with Some _ => true | None => false end.

Definition attr_is (k v : pystr) (e : elem) : bool :=
  match lookup k (attrib e) with Some v' => eqb v' v | None => false end.

(** [e.find(t)]: the first child with tag [t], or [None]. *)
Definition find (t : pystr) (e : elem) : option elem :=
  List.find (has_tag t) (children e).

(** [e.findall(t)]: the children with tag [t]. *)
Definition findall (t : pystr) (e : elem) : list elem :=
  filter (has_tag t) (children e).

(** [x.find(t)] where [x] may be [None] *)
Definition find_m (t : pystr) (x : option elem) : result (option elem) :=
  match x with
  | Some e => Ok (find t e)
  | None => Raise AttributeError
  end.

(** [x.text] where [x] may be [None] *)
Definition text_m (x : option elem) : result (option pystr) :=
  match x with
  | Some e => Ok (text e)
  | None => Raise AttributeError
  end.

(** The element and everything below it, in document order: what the
    XPath axis [descendant-or-self::*] selects. *)
Fixpoint descendants_or_self (e : elem) : list elem :=
  e :: (fix below (cs : list elem) : list elem :=
          match cs with
          | [] => []
          | c :: cs' => descendants_or_self c ++ below cs'
          end) (children e).

(** An element inside a document: the element with the chain of its
    ancestors, each remembered as its tag, attributes, text and the
    siblings left (nearest first) and right of the way down. *)
Record frame : Type := Frame {
  f_tag : pystr;
  f_attrib : list (pystr * pystr);
  f_text : option pystr;
  f_left : list elem;
  f_right : list elem
}.

Record node : Type := Node {
  focus : elem;
  ctx : list frame
}.

(** [n.getparent()] *)
Definition getparent (n : node) : option node :=
  match ctx n with
  | [] => None
  | Frame t a x l r :: up =>
      Some (Node (Elem t a x (rev l ++ focus n :: r)) up)
  end.

(** [n.getnext()] *)
Definition getnext (n : node) : option node :=
  match ctx n with
  | Frame t a x l (s :: r) :: up => Some (Node s (Frame t a x (focus n :: l) r :: up))
  | _ => None
  end.

(** [x.getparent()] and [x.getnext()] where [x] may be [None] *)
Definition getparent_m (x : option node) : result (option node) :=
  match x with
  | Some n => Ok (getparent n)
  | None => Raise AttributeError
  end.

Definition getnext_m (x : option node) : result (option node) :=
  match x with
  | Some n => Ok (getnext n)
  | None => Raise AttributeError
  end.

(** [x.getparent().getparent()...], [k] times *)
Fixpoint ascend (k : nat) (x : option node) : result (option node) :=
  match k with
  | O => Ok x
  | S k' => p <- getparent_m x;; ascend k' p
  end.

(** [x.tag] where [x] may be [None] *)
Definition tag_m (x : option node) : result pystr :=
  match x with
  | Some n => Ok (tag (focus n))
  | None => Raise AttributeError
  end.

(** All nodes at and below [e], in document order, [e] sitting under [up]. *)
Fixpoint nodes_from (up : list frame) (e : elem) : list node :=
  Node e up ::
  (fix below (l : list elem) (cs : list elem) : list node :=
     match cs with
     | [] => []
     | c :: cs' =>
         nodes_from (Frame (tag e) (attrib e) (text e) l cs' :: up) c
           ++ below (c :: l) cs'
     end) [] (children e).

(** The nodes of document [d]. *)
Definition nodes (d : elem) : list node := nodes_from [] d.

(** Has the node a proper ancestor with tag [t]? *)
Definition under (t : pystr) (n : node) : bool :=
  existsb (fun f => eqb (f_tag f) t) (ctx n).

(** *** The selectors of the script *)

(** [d('a[title="v"]')] *)
Definition select_a_title (d : elem) (v : pystr) : list node :=
  filter (fun n => has_tag (lit "a") (focus n) && attr_is (lit "title") v (focus n))
         (nodes d).

(** [d('b [title="v"]')]: any element with that title below a [b]. *)
Definition select_b_title (d : elem) (v : pystr) : list node :=
  filter (fun n => under (lit "b") n && attr_is (lit "title") v (focus n))
         (nodes d).

(** [d('[title="v"]')] *)
Definition select_title (d : elem) (v : pystr) : list node :=
  filter (fun n => attr_is (lit "title") v (focus n)) (nodes d).

(** [d('td[title="v"]')] *)
Definition select_td_title (d : elem) (v : pystr) : list node :=
  filter (fun n => has_tag (lit "td") (focus n) && attr_is (lit "title") v (focus n))
         (nodes d).

(** [d("#i")] *)
Definition select_id (d : elem) (i : pystr) : list elem :=
  filter (attr_is (lit "id") i) (descendants_or_self d).

(** [pq(t)("td[title]")] *)
Definition select_td_with_title (t : elem) : list elem :=
  filter (fun e => has_tag (lit "td") e && has_attr (lit "title") e)
         (descendants_or_self t).

(** [pq(t)("tr")] *)
Definition select_tr (t : elem) : list elem :=
  filter (has_tag (lit "tr")) (descendants_or_self t).

End Dom.

Import Dom.

(** ** The script *)

Module Script.

(** An entry of a symbol list: [(name, letter)]. *)
Definition entry : Type := (pystr * pystr)%type.

(** The list objects of the script, each named by the variable it is bound
    to.  Every such variable is bound once, to a fresh [[]], and never
    rebound, so the variable names the object. *)
Inductive var : Type :=
| unicode_symbols | general_punctuation_symbols
| subscript_symbols | superscript_symbols
| currency_symbols | letterlike_symbols | number_forms | arrow_symbols
| math_symbols | misc_technical_symbols | enclosed_alphanumeric_symbols
| box_drawing_symbols | block_element_symbols | geometric_shape_symbols
| legacy_computing_symbols | misc_symbols | dingbats_symbols
| alchemical_symbols | mahjong_tiles | domino_tiles | playing_cards
| chess_symbols | emoji_symbols.

Definition var_eqb (a b : var) : bool :=
  match a, b with
  | unicode_symbols, unicode_symbols
  | general_punctuation_symbols, general_punctuation_symbols
  | subscript_symbols, subscript_symbols
  | superscript_symbols, superscript_symbols
  | currency_symbols, currency_symbols
  | letterlike_symbols, letterlike_symbols
  | number_forms, number_forms
  | arrow_symbols, arrow_symbols
  | math_symbols, math_symbols
  | misc_technical_symbols, misc_technical_symbols
  | enclosed_alphanumeric_symbols, enclosed_alphanumeric_symbols
  | box_drawing_symbols, box_drawing_symbols
  | block_element_symbols, block_element_symbols
  | geometric_shape_symbols, geometric_shape_symbols
  | legacy_computing_symbols, legacy_computing_symbols
  | misc_symbols, misc_symbols
  | dingbats_symbols, dingbats_symbols
  | alchemical_symbols, alchemical_symbols
  | mahjong_tiles, mahjong_tiles
  | domino_tiles, domino_tiles
  | playing_cards, playing_cards
  | chess_symbols, chess_symbols
  | emoji_symbols, emoji_symbols => true
  | _, _ => false
  end.

(** The state of a run: the contents of the list objects and the dict
    [characters], which maps a category to a list object (not to a copy of
    its contents), in insertion order. *)
Record state : Type := State {
  store : var -> list entry;
  characters : list (pystr * var)
}.

(** [characters = {}] *)
Definition initial : state := State (fun _ => []) [].

(** [v = []] *)
Definition new_list (v : var) (st : state) : state :=
  State (fun w => if var_eqb w v then [] else store st w) (characters st).

(** [v.append(e)] *)
Definition append (v : var) (e : entry) (st : state) : state :=
  State (fun w => if var_eqb w v then store st w ++ [e] else store st w)
        (characters st).

Fixpoint dict_set (k : pystr) (v : var) (c : list (pystr * var)) : list (pystr * var) :=
  match c with
  | [] => [(k, v)]
  | (k', v') :: c' =>
      if eqb k' k then (k', v) :: c' else (k', v') :: dict_set k v c'
  end.

Fixpoint dict_get (k : pystr) (c : list (pystr * var)) : option var :=
  match c with
  | [] => None
  | (k', v) :: c' => if eqb k' k then Some v else dict_get k c'
  end.

(** [characters[k] = v] *)
Definition setitem (k : string) (v : var) (st : state) : state :=
  State (store st) (dict_set (lit k) v (characters st)).

(** [for x in l: body], the body threading the state; [continue] is the
    body returning the state as it is, an exception ends the loop. *)
Fixpoint for_each {A : Type} (l : list A) (body : A -> state -> result state)
         (st : state) : result state :=
  match l with
  | [] => Ok st
  | x :: l' => st' <- body x st;; for_each l' body st'
  end.

(** [assert table.tag == "table"] and the table that passed it *)
Definition assert_table (table : option node) : result node :=
  t <- tag_m table;;
  _ <- assert (eqb t (lit "table"));;
  match table with
  | Some n => Ok n
  | None => Raise AttributeError
  end.

(** The three lines every table lookup of the script is made of:
    [landmark = matches[-1]], [table = climb(landmark)] and the assertion. *)
Definition locate (matches : list node)
           (climb : option node -> result (option node)) : result node :=
  landmark <- getlast matches;;
  table <- climb (Some landmark);;
  assert_table table.

(** [title.split(":")[1].strip()] *)
Definition name_of_title (title : pystr) : result pystr :=
  f <- getitem (split 58 title) 1;;
  Ok (strip f).

(** Did the run come to its end? *)
Definition finished (r : result state) : bool :=
  match r with Ok _ => true | Raise _ => false end.

(** What a run leaves in the list [v], and in the catalog. *)
Definition stored (v : var) (r : result state) : result (list entry) :=
  st <- r;; Ok (store st v).

(** *** Unicode symbols (lines 17-22) *)

(** [l[1:-1]] *)
Definition slice_1_m1 {A : Type} (l : list A) : list A := removelast (tl l).

Definition unicode_symbols_row (tr : elem) : result entry :=
  let tds := findall (lit "td") tr in
  c2 <- getitem tds 2;;
  a <- text_m (find (lit "a") c2);;
  name <- strip_m a;;
  c1 <- getitem tds 1;;
  letter <- strip_m (text c1);;
  Ok (name, letter).

Definition unicode_symbols_block (d : elem) (st : state) : result state :=
  let st := new_list unicode_symbols st in
  st <- for_each (slice_1_m1 (flat_map select_tr (select_id d (lit "Table_Unicode_symbols"))))
         (fun tr st => e <- unicode_symbols_row tr;;
                       Ok (append unicode_symbols e st)) st;;
  Ok (setitem "Unicode Symbols" unicode_symbols st).

(** The loop over [pq(table)("td[title]")] that the General
    Punctuation, the chess and the emoji block share, up to the cell body. *)
Definition cell_step (cell : elem -> result (option entry)) (v : var)
           (td : elem) (st : state) : result state :=
  r <- cell td;;
  match r with
  | Some e => Ok (append v e st)
  | None => Ok st
  end.

Definition for_cells (table : node) (cell : elem -> result (option entry))
           (v : var) (st : state) : result state :=
  for_each (select_td_with_title (focus table)) (cell_step cell v) st.

(** *** General Punctuation (lines 25-43); the landmark's title is a
    parameter, the script's own is ["General Punctuation"]. *)

Definition title_anchor_table (d : elem) (title : pystr) : result node :=
  locate (select_a_title d title) (ascend 5).

(** The loop body: [None] is [continue]. *)
Definition general_punctuation_cell (td : elem) : result (option entry) :=
  title <- attrib_getitem td (lit "title");;
  if eqb title (lit "Reserved") then Ok None
  else
    name <- name_of_title title;;
    letter <- text_m (find (lit "a") td);;
    match letter with
    | Some (c :: l) => Ok (Some (name, c :: l))
    | _ => Ok None
    end.

Definition title_anchor_block (d : elem) (title : pystr) (v : var)
           (st : state) : result state :=
  table <- title_anchor_table d title;;
  let st := new_list v st in
  for_cells table general_punctuation_cell v st.

Definition general_punctuation_block (d : elem) (st : state) : result state :=
  st <- title_anchor_block d (lit "General Punctuation")
          general_punctuation_symbols st;;
  Ok (setitem "General Punctuation" general_punctuation_symbols st).

(** *** [resolve_table] (lines 46-74) *)

(** Lines 47-51: the landmark, the table and the cells to walk. *)
Definition resolve_table_landmark (d : elem) (title : pystr) : result node :=
  locate (select_b_title d title) (ascend 5).

(** Lines 58-70: the letter before it is stripped. *)
Definition letter_of_cell (td : elem) : result (option pystr) :=
  let letter := text td in
  if falsy letter then
    let letter :=
      match find (lit "a") td with
      | Some a => text a
      | None => letter
      end in
    match find (lit "span") td with
    | Some span =>
        match find (lit "a") span with
        | Some a => Ok (text a)
        | None =>
            s1 <- find_m (lit "span") (Some span);;
            s2 <- find_m (lit "span") s1;;
            s3 <- find_m (lit "span") s2;;
            text_m s3
        end
    | None => Ok letter
    end
  else Ok letter.

(** Lines 52-74, one turn of the generator's loop: [None] is [continue],
    [Some y] is [yield y]. *)
Definition resolve_table_cell (td : elem) : result (option (elem * pystr * pystr)) :=
  title <- attrib_getitem td (lit "title");;
  if eqb title (lit "Reserved") then Ok None
  else
    t <- attrib_getitem td (lit "title");;
    name <- name_of_title t;;
    letter <- letter_of_cell td;;
    letter <- strip_m letter;;
    Ok (Some (td, name, letter)).

(** [for y in resolve_table(title): body].  The generator runs as far as
    its next [yield] each time the loop asks for an item, so the body has
    run on every earlier item before a later cell is looked at. *)
Definition generator_step
           (body : elem * pystr * pystr -> state -> result state)
           (td : elem) (st : state) : result state :=
  y <- resolve_table_cell td;;
  match y with
  | Some y => body y st
  | None => Ok st
  end.

Definition for_resolve_table (d : elem) (title : string)
           (body : elem * pystr * pystr -> state -> result state)
           (st : state) : result state :=
  table <- resolve_table_landmark d (lit title);;
  for_each (select_td_with_title (focus table)) (generator_step body) st.

(** [list(resolve_table(title))] from the cells on: the items of the
    generator when it is run to its end. *)
Fixpoint yields (cells : list elem) : result (list (elem * pystr * pystr)) :=
  match cells with
  | [] => Ok []
  | td :: cells' =>
      y <- resolve_table_cell td;;
      ys <- yields cells';;
      Ok (match y with Some y => y :: ys | None => ys end)
  end.

(** The body shared by the plain blocks: [v.append((name, letter))]. *)
Definition append_to (v : var) (y : elem * pystr * pystr) (st : state) : result state :=
  let '(_, name, letter) := y in Ok (append v (name, letter) st).

(** A plain block: [v = []], the loop, [characters[key] = w]. *)
Definition resolve_block (d : elem) (v : var) (title : string)
           (key : string) (w : var) (st : state) : result state :=
  let st := new_list v st in
  st <- for_resolve_table d title (append_to v) st;;
  Ok (setitem key w st).

(** *** Superscripts and subscripts (lines 76-87) *)

Definition route (y : elem * pystr * pystr) (st : state) : result state :=
  let '(_, name, letter) := y in
  if contains (lit "SUPERSCRIPT") name then
    Ok (append superscript_symbols (name, letter) st)
  else if contains (lit "SUBSCRIPT") name then
    Ok (append subscript_symbols (name, letter) st)
  else
    _ <- assert false;; Ok st.

Definition superscripts_loop (d : elem) (st : state) : result state :=
  let st := new_list subscript_symbols st in
  let st := new_list superscript_symbols st in
  for_resolve_table d "Superscripts and Subscripts" route st.

Definition superscripts_block (d : elem) (st : state) : result state :=
  st <- superscripts_loop d st;;
  let st := setitem "Subscript Symbols" subscript_symbols st in
  Ok (setitem "Superscript Symbols" superscript_symbols st).

(** *** Dingbats (lines 177-194) *)

Definition dingbats_table (d : elem) : result node :=
  locate (select_a_title d (lit "Dingbats (Unicode block)"))
         (fun landmark => p <- getparent_m landmark;; getnext_m p).

Definition dingbats_row (tr : elem) : result entry :=
  let tds := findall (lit "td") tr in
  c2 <- getitem tds 2;;
  let name := text c2 in
  name <- (if falsy name then text_m (find (lit "a") c2) else Ok name);;
  name <- strip_m name;;
  c1 <- getitem tds 1;;
  letter <- strip_m (text c1);;
  Ok (name, letter).

Definition dingbats_block (d : elem) (st : state) : result state :=
  table <- dingbats_table d;;
  let st := new_list dingbats_symbols st in
  st <- for_each (tl (select_tr (focus table)))
         (fun tr st => e <- dingbats_row tr;;
                       Ok (append dingbats_symbols e st)) st;;
  Ok (setitem "Dingbats" dingbats_symbols st).

(** *** Chess symbols (lines 225-239) *)

Definition chess_table (d : elem) : result node :=
  locate (select_title d (lit "U+2654: WHITE CHESS KING")) (ascend 3).

Definition chess_cell (td : elem) : result (option entry) :=
  title <- attrib_getitem td (lit "title");;
  if eqb title (lit "Reserved") then Ok None
  else
    name <- name_of_title title;;
    letter <- strip_m (text td);;
    Ok (Some (name, letter)).

Definition chess_block (d : elem) (st : state) : result state :=
  table <- chess_table d;;
  let st := new_list chess_symbols st in
  st <- for_cells table chess_cell chess_symbols st;;
  Ok (setitem "Chess Symbols" chess_symbols st).

(** *** Emojis (lines 247-266), on the second page *)

Definition emoji_table (e : elem) : result node :=
  locate (select_td_title e (lit "U+00A9: COPYRIGHT SIGN")) (ascend 3).

Definition emoji_cell (td : elem) : result (option entry) :=
  title <- attrib_getitem td (lit "title");;
  if eqb title (lit "Reserved") then Ok None
  else
    name <- name_of_title title;;
    let letter := text td in
    letter <- (if falsy letter then text_m (find (lit "a") td) else Ok letter);;
    letter <- strip_m letter;;
    Ok (Some (name, letter)).

Definition emoji_block (e : elem) (st : state) : result state :=
  table <- emoji_table e;;
  let st := new_list emoji_symbols st in
  st <- for_cells table emoji_cell emoji_symbols st;;
  Ok (setitem "Emojis" emoji_symbols st).

(** *** The whole scrape (lines 13-266): [d] is the parsed list of Unicode
    characters, [e] the parsed Emoji page. *)

Definition scrape (d e : elem) : result state :=
  let st := initial in
  st <- unicode_symbols_block d st;;
  st <- general_punctuation_block d st;;
  st <- superscripts_block d st;;
  st <- resolve_block d currency_symbols "Currency Symbols (Unicode block)"
          "Currency Symbols" currency_symbols st;;
  st <- resolve_block d letterlike_symbols "Letterlike Symbols"
          "Letterlike Symbols" letterlike_symbols st;;
  st <- resolve_block d number_forms "Number Forms"
          "Number Forms" number_forms st;;
  st <- resolve_block d arrow_symbols "Arrows (Unicode block)"
          "Arrow Symbols" arrow_symbols st;;
  st <- resolve_block d math_symbols "Mathematical Operators (Unicode block)"
          "Math Symbols" math_symbols st;;
  st <- resolve_block d misc_technical_symbols "Miscellaneous Technical"
          "Misc Technical Symbols" math_symbols st;;
  st <- resolve_block d enclosed_alphanumeric_symbols "Enclosed Alphanumerics"
          "Enclosed Alphanumeric Symbols" enclosed_alphanumeric_symbols st;;
  st <- resolve_block d box_drawing_symbols "Box Drawing"
          "Box Drawing Symbols" box_drawing_symbols st;;
  st <- resolve_block d block_element_symbols "Box Drawing"
          "Block Element Symbols" block_element_symbols st;;
  st <- resolve_block d geometric_shape_symbols "Box Drawing"
          "Geometric Shape Symbols" geometric_shape_symbols st;;
  st <- resolve_block d legacy_computing_symbols "Symbols for Legacy Computing"
          "Legacy Computing Symbols" legacy_computing_symbols st;;
  st <- resolve_block d misc_symbols "Miscellaneous Symbols"
          "Misc Symbols" misc_symbols st;;
  st <- dingbats_block d st;;
  st <- resolve_block d alchemical_symbols "Alchemical Symbols (Unicode block)"
          "Alchemical Symbols" alchemical_symbols st;;
  st <- resolve_block d mahjong_tiles "Mahjong Tiles (Unicode block)"
          "Mahjong Tiles" mahjong_tiles st;;
  st <- resolve_block d domino_tiles "Domino Tiles"
          "Domino Tiles" domino_tiles st;;
  st <- resolve_block d playing_cards "Playing Cards (Unicode block)"
          "Playing Cards" playing_cards st;;
  st <- chess_block d st;;
  emoji_block e st.

(** *** The output (lines 269-280) *)

(** [characters.items()]: each category with the contents of its list. *)
Definition items (st : state) : list (pystr * list entry) :=
  map (fun kv => (fst kv, store st (snd kv))) (characters st).

Definition listed (r : result state) : result (list (pystr * list entry)) :=
  st <- r;; Ok (items st).

(** The entries as they are written: the name title-cased. *)
Definition titled (es : list entry) : list entry :=
  map (fun e => (title (fst e), snd e)) es.

(** A string between double quotes (code point 34). *)
Definition quoted (s : pystr) : pystr := [34] ++ s ++ [34].

Definition letters_of (es : list entry) : pystr :=
  join (lit "," ++ [10])
       (map (fun e => lit "(" ++ quoted (fst e) ++ lit ", " ++ quoted (snd e) ++ lit ")")
            (titled es)).

Definition out (st : state) : list pystr :=
  map (fun gi => lit "(" ++ quoted (fst gi) ++ lit ", &[" ++ letters_of (snd gi) ++ lit "])")
      (items st).

(** What [print] receives. *)
Definition printed (st : state) : pystr :=
  lit "&[" ++ join (lit "," ++ [10]) (out st) ++ lit "]".

End Script.

Import Script.

(** ** Sample pages *)

Module Samples.

Local Open Scope string_scope.
Local Open Scope list_scope.

Definition el (t : string) (a : list (string * string)) (x : option pystr)
           (cs : list elem) : elem :=
  Elem (lit t) (map (fun kv => (lit (fst kv), lit (snd kv))) a) x cs.

(** A data cell [<td title=...>text</td>]. *)
Definition cell (title : string) (x : option pystr) (cs : list elem) : elem :=
  el "td" [("title", title)] x cs.

Definition anchor (x : pystr) : elem := el "a" [] (Some x) [].

(** The heading row of a block table: the landmark anchor sits in a bold
    element of a header cell, five levels below the table. *)
Definition landmark_row (title : string) : elem :=
  el "tr" [] None
     [el "th" [] None
         [el "b" [] None [el "a" [("title", title)] (Some (lit title)) []]]].

Definition block_table (title : string) (cells : list elem) : elem :=
  el "table" [] None
     [el "tbody" [] None [landmark_row title; el "tr" [] None cells]].

Definition page (tables : list elem) : elem :=
  el "html" [] None [el "body" [] None tables].

(** The page of the end-to-end scenario: one table, its landmark anchor
    titled "Test Category" five levels below it, one data cell with the
    direct text "A". *)
Definition latin_a_cell : elem :=
  cell "U+0041: LATIN CAPITAL LETTER A" (Some (lit "A")) [].

Definition test_page : elem :=
  page [block_table "Test Category" [latin_a_cell]].

(** The same page with the letter held by a child anchor of the cell. *)
Definition test_page_anchor : elem :=
  page [block_table "Test Category"
          [cell "U+0041: LATIN CAPITAL LETTER A" None [anchor (lit "A")]]].

(** A cell without direct text, with a child anchor with text "X" and a
    child span holding an anchor with text "Y". *)
Definition anchor_and_span_cell : elem :=
  cell "U+0041: LATIN CAPITAL LETTER A" None
       [anchor (lit "X"); el "span" [] None [anchor (lit "Y")]].

(** A cell with direct text "A" and a child anchor with text "B". *)
Definition text_and_anchor_cell : elem :=
  cell "U+0041: LATIN CAPITAL LETTER A" (Some (lit "A")) [anchor (lit "B")].

(** A cell whose only text is one space, and a cell whose title has
    nothing after its colon. *)
Definition space_cell : elem := cell "U+0020: SPACE" (Some (lit " ")) [].
Definition nameless_cell : elem := cell "U+0041:" (Some (lit "A")) [].
Definition blank_page : elem :=
  page [block_table "Currency Symbols (Unicode block)" [space_cell; nameless_cell]].

(** A reserved cell, with a glyph all the same. *)
Definition reserved_cell : elem := cell "Reserved" (Some (lit "X")) [].

(** A Dingbats section: the landmark anchor in a paragraph, the table next
    to the paragraph; each row has the code, the glyph and the name. *)
Definition dingbats_section (rows : list elem) : elem :=
  el "div" [] None
     [el "p" [] None
         [el "a" [("title", "Dingbats (Unicode block)")] (Some (lit "Dingbats")) []];
      el "table" [] None
         [el "tbody" [] None (el "tr" [] None [el "th" [] None []] :: rows)]].

Definition dingbats_row_of (glyph_cell : elem) (name : string) : elem :=
  el "tr" [] None [el "td" [] (Some (lit "U+2700")) []; glyph_cell;
                   el "td" [] (Some (lit name)) []].

Definition reserved_dingbats_page : elem :=
  page [dingbats_section [dingbats_row_of reserved_cell "BLACK SAFETY SCISSORS"]].

(** A landmark that is not five levels below a table: the anchor sits
    directly in a paragraph of the body. *)
Definition stray_page : elem :=
  page [el "div" [] None [el "p" [] None [el "i" [] None
          [el "b" [] None [el "a" [("title", "Test Category")] None []]]]]].

(** A page without any landmark. *)
Definition empty_page : elem := page [].

(** *** A whole pair of pages on which the scrape runs to its end *)

Definition unicode_symbols_table : elem :=
  el "table" [("id", "Table_Unicode_symbols")] None
     [el "tbody" [] None
         [el "tr" [] None [el "th" [] None []];
          el "tr" [] None
             [el "td" [] (Some (lit "U+00A9")) [];
              el "td" [] (Some [169]) [];
              el "td" [] None [anchor (lit "Copyright symbol")]];
          el "tr" [] None [el "td" [] None []]]].

Definition plain_titles : list string :=
  ["Currency Symbols (Unicode block)"; "Letterlike Symbols"; "Number Forms";
   "Arrows (Unicode block)"; "Mathematical Operators (Unicode block)";
   "Miscellaneous Technical"; "Enclosed Alphanumerics"; "Box Drawing";
   "Symbols for Legacy Computing"; "Miscellaneous Symbols";
   "Alchemical Symbols (Unicode block)"; "Mahjong Tiles (Unicode block)";
   "Domino Tiles"; "Playing Cards (Unicode block)"].

Definition base_page : elem :=
  page
    ([unicode_symbols_table;
      block_table "General Punctuation"
        [cell "U+2020: DAGGER" None [anchor [8224]]; reserved_cell];
      block_table "Superscripts and Subscripts"
        [cell "U+2070: SUPERSCRIPT ZERO" (Some [8304]) [];
         cell "U+2080: SUBSCRIPT ZERO" (Some [8320]) []]]
     ++ map (fun t => block_table t [latin_a_cell; reserved_cell]) plain_titles
     ++ [dingbats_section
           [dingbats_row_of (el "td" [] (Some [9985]) []) "UPPER BLADE SCISSORS"];
         el "table" [] None
            [el "tbody" [] None
                [el "tr" [] None
                    [cell "U+2654: WHITE CHESS KING" (Some [9812]) []]]]]).

Definition emoji_page : elem :=
  page [el "table" [] None
           [el "tbody" [] None
               [el "tr" [] None
                   [cell "U+00A9: COPYRIGHT SIGN" (Some [169]) []]]]].

End Samples.

(** ** The statements of the specification, as functions *)

Module Spec.

(** The part of [s] before the first [c] (all of [s] when it has none). *)
Fixpoint before (c : N) (s : pystr) : pystr :=
  match s with
  | [] => []
  | x :: s' => if x =? c then [] else x :: before c s'
  end.

(** The part of [s] after the first [c] (empty when [s] has none). *)
Fixpoint after (c : N) (s : pystr) : pystr :=
  match s with
  | [] => []
  | x :: s' => if x =? c then s' else after c s'
  end.

(** The name as the specification words it: the substring after the
    first colon, trimmed. *)
Definition name_after_first_colon (title : pystr) : pystr :=
  strip (after 58 title).

Definition text_of (x : option elem) : option pystr :=
  match x with Some e => text e | None => None end.

Definition child (t : string) (x : option elem) : option elem :=
  match x with Some e => find (lit t) e | None => None end.

(** The four producers of the fallback chain in the order the
    specification lists them: (a) the direct text, (b) a child anchor's
    text, (c) the text of a child span's child anchor, (d) the text three
    spans below a child span. *)
Definition producers (td : elem) : list (option pystr) :=
  [ text td;
    text_of (child "a" (Some td));
    text_of (child "a" (child "span" (Some td)));
    text_of (child "span" (child "span" (child "span" (child "span" (Some td))))) ].

(** The first producer that yields non-empty text. *)
Fixpoint first_yielding (l : list (option pystr)) : option pystr :=
  match l with
  | [] => None
  | x :: l' => if falsy x then first_yielding l' else x
  end.

Definition has_superscript (y : elem * pystr * pystr) : bool :=
  contains (lit "SUPERSCRIPT") (snd (fst y)).

Definition has_subscript (y : elem * pystr * pystr) : bool :=
  contains (lit "SUBSCRIPT") (snd (fst y)).

(** A name with one of the two words, and a name with the second only. *)
Definition routable (y : elem * pystr * pystr) : bool :=
  has_superscript y || has_subscript y.

Definition to_subscripts (y : elem * pystr * pystr) : bool :=
  negb (has_superscript y) && has_subscript y.

Definition entry_of (y : elem * pystr * pystr) : entry :=
  (snd (fst y), snd y).

Definition is_reserved (td : elem) : bool :=
  attr_is (lit "title") (lit "Reserved") td.

(** The two categories that hold one list object. *)
Definition shared_pair (k1 k2 : pystr) : bool :=
  (eqb k1 (lit "Math Symbols") && eqb k2 (lit "Misc Technical Symbols"))
  || (eqb k1 (lit "Misc Technical Symbols") && eqb k2 (lit "Math Symbols")).

(** Do exactly the pairs of [shared_pair] share their list in [c]? *)
Definition sharing_is_exact (c : list (pystr * var)) : bool :=
  forallb (fun p =>
    forallb (fun q =>
      eqb (fst p) (fst q)
      || Bool.eqb (var_eqb (snd p) (snd q)) (shared_pair (fst p) (fst q))) c) c.

(** The categories of a finished run with the list object of each. *)
Definition catalog : list (pystr * var) :=
  [ (lit "Unicode Symbols", unicode_symbols);
    (lit "General Punctuation", general_punctuation_symbols);
    (lit "Subscript Symbols", subscript_symbols);
    (lit "Superscript Symbols", superscript_symbols);
    (lit "Currency Symbols", currency_symbols);
    (lit "Letterlike Symbols", letterlike_symbols);
    (lit "Number Forms", number_forms);
    (lit "Arrow Symbols", arrow_symbols);
    (lit "Math Symbols", math_symbols);
    (lit "Misc Technical Symbols", math_symbols);
    (lit "Enclosed Alphanumeric Symbols", enclosed_alphanumeric_symbols);
    (lit "Box Drawing Symbols", box_drawing_symbols);
    (lit "Block Element Symbols", block_element_symbols);
    (lit "Geometric Shape Symbols", geometric_shape_symbols);
    (lit "Legacy Computing Symbols", legacy_computing_symbols);
    (lit "Misc Symbols", misc_symbols);
    (lit "Dingbats", dingbats_symbols);
    (lit "Alchemical Symbols", alchemical_symbols);
    (lit "Mahjong Tiles", mahjong_tiles);
    (lit "Domino Tiles", domino_tiles);
    (lit "Playing Cards", playing_cards);
    (lit "Chess Symbols", chess_symbols);
    (lit "Emojis", emoji_symbols) ].

End Spec.

Import Samples Spec.

(** ** Readings of a run *)

Module Run.

Local Open Scope string_scope.
Local Open Scope list_scope.

(** The entries a loop over [l] appends when its body appends [e] for
    [f x = Some e] and passes over [x] for [f x = None]: the first
    exception ends it. *)
Fixpoint collect (f : elem -> result (option entry)) (l : list elem)
  : result (list entry) :=
  match l with
  | [] => Ok []
  | x :: l' =>
      r <- f x;;
      es <- collect f l';;
      Ok (match r with Some e => e :: es | None => es end)
  end.

(** A row body, which appends an entry for every row. *)
Definition every (f : elem -> result entry) (x : elem) : result (option entry) :=
  e <- f x;; Ok (Some e).

(** The cell body behind a plain loop over the generator. *)
Definition plain_cell (td : elem) : result (option entry) :=
  y <- resolve_table_cell td;; Ok (option_map entry_of y).

(** [[(name, letter) for (_, name, letter) in resolve_table(title)]] *)
Definition entries (d : elem) (title : string) : result (list entry) :=
  t <- resolve_table_landmark d (lit title);;
  ys <- yields (select_td_with_title (focus t));;
  Ok (map entry_of ys).

(** The lists other than those of [vs] hold in [st'] what they hold in [st]. *)
Definition untouched (vs : list var) (st st' : state) : Prop :=
  forall u, existsb (var_eqb u) vs = false -> store st' u = store st u.

(** The lists that are filled by a plain loop over [resolve_table], each
    with the title it passes. *)
Definition plain_lists : list (var * string) :=
  [ (currency_symbols, "Currency Symbols (Unicode block)");
    (letterlike_symbols, "Letterlike Symbols");
    (number_forms, "Number Forms");
    (arrow_symbols, "Arrows (Unicode block)");
    (math_symbols, "Mathematical Operators (Unicode block)");
    (misc_technical_symbols, "Miscellaneous Technical");
    (enclosed_alphanumeric_symbols, "Enclosed Alphanumerics");
    (box_drawing_symbols, "Box Drawing");
    (block_element_symbols, "Box Drawing");
    (geometric_shape_symbols, "Box Drawing");
    (legacy_computing_symbols, "Symbols for Legacy Computing");
    (misc_symbols, "Miscellaneous Symbols");
    (alchemical_symbols, "Alchemical Symbols (Unicode block)");
    (mahjong_tiles, "Mahjong Tiles (Unicode block)");
    (domino_tiles, "Domino Tiles");
    (playing_cards, "Playing Cards (Unicode block)") ].

(** A string that neither starts nor ends with white space. *)
Definition starts_clean (s : pystr) : bool :=
  match s with
  | [] => true
  | c :: _ => negb (isspace c)
  end.

Definition trimmed (s : pystr) : bool := starts_clean s && starts_clean (rev s).

(** How many [getparent()] lead from a node to [None]. *)
Definition depth (n : node) : nat := List.length (ctx n).

(** The element [f] put back under the ancestors [fs]. *)
Fixpoint plug (f : elem) (fs : list frame) : elem :=
  match fs with
  | [] => f
  | Frame t a x l r :: up => plug (Elem t a x (rev l ++ f :: r)) up
  end.

(** The root of the tree a node sits in. *)
Definition root (n : node) : elem := plug (focus n) (ctx n).

(** The rows the Unicode symbols loop and the Dingbats loop walk. *)
Definition unicode_symbols_rows (d : elem) : list elem :=
  flat_map select_tr (select_id d (lit "Table_Unicode_symbols")).

(** A page whose landmark anchor is a child of its table. *)
Definition shallow_page : elem :=
  page [el "table" [] None [el "a" [("title", "Test Category")] None []]].

(** The lower-case letter of a Basic Latin capital, any other code point
    as it is. *)
Definition lower1 (c : N) : N := if is_upper_ascii c then c + 32 else c.

End Run.

Import Run.

(** * Properties *)

(** ** Strings *)

Lemma eqb_refl (a : pystr) : eqb a a = true.
Proof.
  induction a as [|x a IH]; simpl; [reflexivity|].
  now rewrite N.eqb_refl, IH.
Qed.

Lemma eqb_eq (a b : pystr) : eqb a b = true <-> a = b.
Proof.
  split; [|intros ->; apply eqb_refl].
  revert b; induction a as [|x a IH]; intros [|y b]; simpl; try easy.
  rewrite andb_true_iff, N.eqb_eq. intros [-> H]. now rewrite (IH b H).
Qed.

Lemma eqb_neq (a b : pystr) : eqb a b = false <-> a <> b.
Proof.
  rewrite <- eqb_eq. destruct (eqb a b); split; congruence.
Qed.

(** Decide the range tests on a code point that occur in the goal. *)
Ltac code_point_cases :=
  repeat match goal with
         | E : (_ <=? _) = true |- _ => apply N.leb_le in E
         | E : (_ <=? _) = false |- _ => apply N.leb_gt in E
         end;
  repeat match goal with
         | |- context [?a <=? ?b] =>
             let E := fresh in
             destruct (a <=? b) eqn:E;
             [apply N.leb_le in E | apply N.leb_gt in E]
         | |- context [?a =? ?b] =>
             let E := fresh in
             destruct (a =? b) eqn:E;
             [apply N.eqb_eq in E | apply N.eqb_neq in E]
         | |- context [?a <? ?b] =>
             let E := fresh in
             destruct (a <? b) eqn:E;
             [apply N.ltb_lt in E | apply N.ltb_ge in E]
         end; simpl; try reflexivity; try lia.

Section TitleCase.

(** On the Basic Latin block both mappings give one character of the same
    casedness, and each is a projection. *)

Lemma to_lower_ascii (c : N) :
  is_ascii c = true ->
  exists c', to_lower_full c = [c'] /\ is_ascii c' = true /\
             is_cased c' = is_cased c /\ to_lower_full c' = [c'].
Proof.
  unfold is_ascii, to_lower_full, is_cased, is_upper_ascii, is_lower_ascii.
  intros H. apply N.ltb_lt in H.
  destruct (65 <=? c) eqn:A; destruct (c <=? 90) eqn:B; simpl;
    eexists; (split; [reflexivity|]);
    repeat split; code_point_cases.
Qed.

Lemma to_title_ascii (c : N) :
  is_ascii c = true ->
  exists c', to_title_full c = [c'] /\ is_ascii c' = true /\
             is_cased c' = is_cased c /\ to_title_full c' = [c'].
Proof.
  unfold is_ascii, to_title_full, is_cased, is_upper_ascii, is_lower_ascii.
  intros H. apply N.ltb_lt in H.
  assert ((c =? 496) = false) as -> by (apply N.eqb_neq; lia).
  destruct (97 <=? c) eqn:A; destruct (c <=? 122) eqn:B; simpl;
    eexists; (split; [reflexivity|]);
    repeat split; code_point_cases.
Qed.

(** A character already in the case the previous character asks for stays
    as it is: the second pass of [do_title] over the output of the first. *)
Lemma do_title_again (s : pystr) :
  forallb is_ascii s = true ->
  forall p, do_title p (do_title p s) = do_title p s.
Proof.
  induction s as [|c s IH]; intros H p; [reflexivity|].
  simpl in H. apply andb_true_iff in H as [Hc Hs].
  simpl. destruct p.
  - destruct (to_lower_ascii c Hc) as (c' & -> & _ & Hcased & Hfix).
    simpl. rewrite Hfix, Hcased, (IH Hs). reflexivity.
  - destruct (to_title_ascii c Hc) as (c' & -> & _ & Hcased & Hfix).
    simpl. rewrite Hfix, Hcased, (IH Hs). reflexivity.
Qed.

End TitleCase.

(** C9, as the claim states it, fails: title-casing is not idempotent on
    every string.  For the two code points U+01F0 U+0061 (a small j with
    caron, then a small a) the first pass gives U+004A U+030C U+0061 and
    the second pass, which finds the uncased U+030C before the a, turns
    the a into U+0041. *)
Lemma title_not_idempotent :
  title [496; 97] = [74; 780; 97] /\
  title (title [496; 97]) = [74; 780; 65] /\
  ~ (forall s : pystr, title (title s) = title s).
Proof.
  split; [reflexivity|]. split; [reflexivity|].
  intros H. specialize (H [496; 97]). vm_compute in H. discriminate H.
Qed.

(** C9, amended: title-casing is idempotent on every string of Basic
    Latin (ASCII) characters, which is what the names of the page are
    made of. *)
Theorem title_idempotent_ascii (s : pystr) :
  forallb is_ascii s = true -> title (title s) = title s.
Proof.
  intros H. unfold title. now apply do_title_again.
Qed.

Lemma title_idempotent_ascii_witness :
  forallb is_ascii (lit "LATIN CAPITAL LETTER A") = true /\
  title (title (lit "LATIN CAPITAL LETTER A")) = title (lit "LATIN CAPITAL LETTER A").
Proof.
  split; [reflexivity|].
  apply (title_idempotent_ascii (lit "LATIN CAPITAL LETTER A")). reflexivity.
Defined.

(** ** The name of a cell *)

Lemma split_before (c : N) (s : pystr) :
  exists fs, split c s = before c s :: fs.
Proof.
  induction s as [|x s [fs IH]]; simpl; [now exists []|].
  destruct (x =? c); [eexists; reflexivity|].
  rewrite IH. eexists; reflexivity.
Qed.

Lemma split_app_sep (c : N) (pre rest : pystr) :
  ~ In c pre -> split c (pre ++ c :: rest) = pre :: split c rest.
Proof.
  induction pre as [|x pre IH]; intros H; simpl.
  - now rewrite N.eqb_refl.
  - destruct (x =? c) eqn:E.
    + apply N.eqb_eq in E. exfalso. apply H. now left.
    + rewrite IH; [reflexivity|]. intros Hin. apply H. now right.
Qed.

Lemma before_no_sep (c : N) (s : pystr) : ~ In c s -> before c s = s.
Proof.
  induction s as [|x s IH]; intros H; simpl; [reflexivity|].
  destruct (x =? c) eqn:E.
  - apply N.eqb_eq in E. exfalso. apply H. now left.
  - rewrite IH; [reflexivity|]. intros Hin. apply H. now right.
Qed.

Lemma after_app_sep (c : N) (pre rest : pystr) :
  ~ In c pre -> after c (pre ++ c :: rest) = rest.
Proof.
  induction pre as [|x pre IH]; intros H; simpl.
  - now rewrite N.eqb_refl.
  - destruct (x =? c) eqn:E.
    + apply N.eqb_eq in E. exfalso. apply H. now left.
    + apply IH. intros Hin. apply H. now right.
Qed.

(** C4, as the claim states it, fails on a title with a second colon:
    the name stops at the second colon. *)
Lemma name_stops_at_second_colon :
  name_of_title (lit "U+0041: LATIN: A") = Ok (lit "LATIN") /\
  name_after_first_colon (lit "U+0041: LATIN: A") = lit "LATIN: A" /\
  ~ (forall title : pystr, In 58 title ->
       name_of_title title = Ok (name_after_first_colon title)).
Proof.
  split; [reflexivity|]. split; [reflexivity|].
  intros H. specialize (H (lit "U+0041: LATIN: A")).
  vm_compute in H.
  assert (@Ok pystr [76; 65; 84; 73; 78] = Ok [76; 65; 84; 73; 78; 58; 32; 65])
    as E by (apply H; auto 12).
  discriminate E.
Qed.

(** C4, amended: the name is the text between the first colon of the
    title and its second colon (or its end, when there is no second
    colon), trimmed; it is the trimmed substring after the first colon
    exactly when the title has one colon. *)
Theorem name_of_title_field (pre rest : pystr) :
  ~ In 58 pre ->
  name_of_title (pre ++ 58 :: rest) = Ok (strip (before 58 rest)) /\
  (~ In 58 rest ->
   name_of_title (pre ++ 58 :: rest)
   = Ok (name_after_first_colon (pre ++ 58 :: rest))).
Proof.
  intros Hpre.
  assert (name_of_title (pre ++ 58 :: rest) = Ok (strip (before 58 rest))) as E.
  { unfold name_of_title. rewrite (split_app_sep _ _ _ Hpre).
    destruct (split_before 58 rest) as [fs ->]. reflexivity. }
  split; [exact E|].
  intros Hrest. rewrite E. unfold name_after_first_colon.
  now rewrite (after_app_sep _ _ _ Hpre), (before_no_sep _ _ Hrest).
Qed.

Lemma name_of_title_field_witness :
  ~ In 58 (lit "U+0041") /\
  name_of_title (lit "U+0041" ++ 58 :: lit " LATIN CAPITAL LETTER A")
  = Ok (lit "LATIN CAPITAL LETTER A").
Proof.
  assert (~ In 58 (lit "U+0041")) as H by (vm_compute; intuition discriminate).
  split; [exact H|].
  exact (proj1 (name_of_title_field (lit "U+0041") (lit " LATIN CAPITAL LETTER A") H)).
Defined.

(** ** Finding the table *)

Lemma assert_table_ok (x : option node) (t : node) :
  assert_table x = Ok t -> x = Some t /\ tag (focus t) = lit "table".
Proof.
  destruct x as [n|]; [|discriminate].
  unfold assert_table. simpl.
  destruct (eqb (tag (focus n)) (lit "table")) eqn:E; simpl; [|discriminate].
  intros [= <-]. split; [reflexivity|]. now apply eqb_eq.
Qed.

Lemma assert_table_other (n : node) :
  tag (focus n) <> lit "table" -> assert_table (Some n) = Raise AssertionError.
Proof.
  intros H. apply eqb_neq in H. unfold assert_table. simpl. now rewrite H.
Qed.

Lemma getlast_nil {A : Type} (l : list A) : l = [] -> getlast l = Raise IndexError.
Proof. now intros ->. Qed.

Lemma getlast_ok {A : Type} (l : list A) (a : A) :
  getlast l = Ok a -> exists l', l = l' ++ [a].
Proof.
  unfold getlast. destruct (rev l) as [|b r] eqn:E; [discriminate|].
  intros [= ->]. exists (rev r).
  rewrite <- (rev_involutive l), E. reflexivity.
Qed.

(** C7: whatever the matches and the way up, a lookup that returns
    returns a table element, and when the element the way up arrives at
    is not a table the lookup ends in the assertion's failure.  Every
    table lookup of the script is [locate] at its selector and its way
    up ([title_anchor_table], [resolve_table_landmark], [dingbats_table],
    [chess_table], [emoji_table]). *)
Theorem locate_table_or_assertion
        (matches : list node) (climb : option node -> result (option node)) :
  (forall t, locate matches climb = Ok t -> tag (focus t) = lit "table") /\
  (forall landmark n,
      getlast matches = Ok landmark ->
      climb (Some landmark) = Ok (Some n) ->
      tag (focus n) <> lit "table" ->
      locate matches climb = Raise AssertionError).
Proof.
  split.
  - intros t. unfold locate.
    destruct (getlast matches) as [l|]; simpl; [|discriminate].
    destruct (climb (Some l)) as [x|]; simpl; [|discriminate].
    intros H. now apply assert_table_ok in H.
  - intros l n Hl Hc Ht. unfold locate. rewrite Hl. simpl. rewrite Hc. simpl.
    now apply assert_table_other.
Qed.

Lemma locate_table_or_assertion_witness :
  (exists t, resolve_table_landmark test_page (lit "Test Category") = Ok t /\
             tag (focus t) = lit "table") /\
  resolve_table_landmark stray_page (lit "Test Category") = Raise AssertionError.
Proof.
  split.
  - destruct (resolve_table_landmark test_page (lit "Test Category")) as [t|] eqn:E;
      [|vm_compute in E; discriminate E].
    exists t. split; [reflexivity|].
    exact (proj1 (locate_table_or_assertion _ _) t E).
  - destruct (getlast (select_b_title stray_page (lit "Test Category")))
      as [l|] eqn:El; [|vm_compute in El; discriminate El].
    destruct (ascend 5 (Some l)) as [[n|]|] eqn:En.
    + refine (proj2 (locate_table_or_assertion _ _) l n El En _).
      vm_compute in El. injection El as <-. vm_compute in En.
      injection En as <-. vm_compute. discriminate.
    + vm_compute in El. injection El as <-. vm_compute in En. discriminate En.
    + vm_compute in El. injection El as <-. vm_compute in En. discriminate En.
Defined.

(** C8: with no match for the landmark the lookup raises [IndexError]
    at [matches[-1]]; no way up is tried and whatever would follow the
    lookup does not run. *)
Theorem locate_no_match
        (matches : list node) (climb : option node -> result (option node)) :
  matches = [] ->
  locate matches climb = Raise IndexError /\
  (forall (A : Type) (k : node -> result A),
      bind (locate matches climb) k = Raise IndexError).
Proof.
  intros ->. split; [reflexivity|]. intros A k. reflexivity.
Qed.

Lemma locate_no_match_witness :
  select_b_title empty_page (lit "Number Forms") = [] /\
  resolve_table_landmark empty_page (lit "Number Forms") = Raise IndexError.
Proof.
  split; [reflexivity|].
  apply (locate_no_match (select_b_title empty_page (lit "Number Forms")) (ascend 5)).
  reflexivity.
Defined.

(** The blocks of the script on a page without their landmark. *)
Lemma for_resolve_table_no_match d title body st :
  select_b_title d (lit title) = [] ->
  for_resolve_table d title body st = Raise IndexError.
Proof.
  intros H. unfold for_resolve_table, resolve_table_landmark, locate.
  now rewrite H.
Qed.

Lemma resolve_block_no_match d v title key w st :
  select_b_title d (lit title) = [] ->
  resolve_block d v title key w st = Raise IndexError.
Proof.
  intros H. unfold resolve_block.
  now rewrite for_resolve_table_no_match.
Qed.

Lemma title_anchor_block_no_match d title v st :
  select_a_title d title = [] ->
  title_anchor_block d title v st = Raise IndexError.
Proof.
  intros H. unfold title_anchor_block, title_anchor_table, locate. now rewrite H.
Qed.

Lemma dingbats_block_no_match d st :
  select_a_title d (lit "Dingbats (Unicode block)") = [] ->
  dingbats_block d st = Raise IndexError.
Proof.
  intros H. unfold dingbats_block, dingbats_table, locate. now rewrite H.
Qed.

Lemma chess_block_no_match d st :
  select_title d (lit "U+2654: WHITE CHESS KING") = [] ->
  chess_block d st = Raise IndexError.
Proof.
  intros H. unfold chess_block, chess_table, locate. now rewrite H.
Qed.

Lemma emoji_block_no_match e st :
  select_td_title e (lit "U+00A9: COPYRIGHT SIGN") = [] ->
  emoji_block e st = Raise IndexError.
Proof.
  intros H. unfold emoji_block, emoji_table, locate. now rewrite H.
Qed.

(** ** The letter of a cell *)

(** C2, as the claim states it, fails: the chain does not stop at a
    child anchor that yields.  For a cell without direct text, with a
    child anchor "X" and a child span that holds an anchor "Y", the
    first yielding producer in the listed order is (b), "X", and the
    script takes (c), "Y". *)
Lemma span_overrides_anchor :
  producers anchor_and_span_cell = [None; Some (lit "X"); Some (lit "Y"); None] /\
  first_yielding (producers anchor_and_span_cell) = Some (lit "X") /\
  letter_of_cell anchor_and_span_cell = Ok (Some (lit "Y")) /\
  resolve_table_cell anchor_and_span_cell
  = Ok (Some (anchor_and_span_cell, lit "LATIN CAPITAL LETTER A", lit "Y")) /\
  ~ (forall td, letter_of_cell td = Ok (first_yielding (producers td))).
Proof.
  repeat (split; [reflexivity|]).
  intros H. specialize (H anchor_and_span_cell). vm_compute in H. discriminate H.
Qed.

(** C2, amended: non-empty direct text wins and nothing else is read;
    without it a child span decides, by its child anchor or else by the
    text three spans below it, whether or not a child anchor of the cell
    has text; the child anchor of the cell gives the letter only when the
    cell has no child span. *)
Theorem letter_of_cell_order (td : elem) :
  (falsy (text td) = false -> letter_of_cell td = Ok (text td)) /\
  (falsy (text td) = true ->
   forall span, find (lit "span") td = Some span ->
     (forall a, find (lit "a") span = Some a -> letter_of_cell td = Ok (text a)) /\
     (find (lit "a") span = None ->
      letter_of_cell td
      = match child "span" (child "span" (child "span" (Some span))) with
        | Some s => Ok (text s)
        | None => Raise AttributeError
        end)) /\
  (falsy (text td) = true -> find (lit "span") td = None ->
     (forall a, find (lit "a") td = Some a -> letter_of_cell td = Ok (text a)) /\
     (find (lit "a") td = None -> letter_of_cell td = Ok (text td))).
Proof.
  unfold letter_of_cell. repeat split.
  - now intros ->.
  - intros a Ha. now rewrite H, H0, Ha.
  - intros Ha. rewrite H, H0, Ha. simpl.
    destruct (find (lit "span") span) as [s1|]; simpl; [|reflexivity].
    destruct (find (lit "span") s1) as [s2|]; simpl; [|reflexivity].
    destruct (find (lit "span") s2) as [s3|]; reflexivity.
  - intros a Ha. now rewrite H, H0, Ha.
  - intros Ha. now rewrite H, H0, Ha.
Qed.

Lemma letter_of_cell_order_witness :
  falsy (text text_and_anchor_cell) = false /\
  find (lit "a") text_and_anchor_cell = Some (anchor (lit "B")) /\
  letter_of_cell text_and_anchor_cell = Ok (Some (lit "A")).
Proof.
  split; [reflexivity|]. split; [reflexivity|].
  apply (proj1 (letter_of_cell_order text_and_anchor_cell)). reflexivity.
Defined.

(** ** Reserved cells *)

Lemma attr_is_lookup (k v : pystr) (e : elem) :
  attr_is k v e = true <-> lookup k (attrib e) = Some v.
Proof.
  unfold attr_is. destruct (lookup k (attrib e)) as [v'|]; [|easy].
  rewrite eqb_eq. split; congruence.
Qed.

(** C6, as the claim states it, fails for the row-oriented strategy,
    which never reads a title: a Dingbats row whose glyph cell is titled
    "Reserved" gives an entry all the same. *)
Lemma reserved_row_is_emitted :
  is_reserved reserved_cell = true /\
  findall (lit "td") (dingbats_row_of reserved_cell "BLACK SAFETY SCISSORS")
  = [el "td" [] (Some (lit "U+2700")) []; reserved_cell;
     el "td" [] (Some (lit "BLACK SAFETY SCISSORS")) []] /\
  stored dingbats_symbols (dingbats_block reserved_dingbats_page initial)
  = Ok [(lit "BLACK SAFETY SCISSORS", lit "X")].
Proof.
  repeat split; reflexivity.
Qed.

(** C6, amended: under the strategies that walk the titled cells
    ([resolve_table], General Punctuation, Emojis and the text-only Chess
    Symbols) a cell whose title is exactly "Reserved" produces no entry
    and its turn of the loop leaves the state as it is. *)
Theorem reserved_cell_is_skipped (td : elem) :
  lookup (lit "title") (attrib td) = Some (lit "Reserved") ->
  (resolve_table_cell td = Ok None /\
   general_punctuation_cell td = Ok None /\
   chess_cell td = Ok None /\
   emoji_cell td = Ok None) /\
  (forall body st, generator_step body td st = Ok st) /\
  (forall v st,
      cell_step general_punctuation_cell v td st = Ok st /\
      cell_step chess_cell v td st = Ok st /\
      cell_step emoji_cell v td st = Ok st).
Proof.
  intros H.
  assert (resolve_table_cell td = Ok None /\
          general_punctuation_cell td = Ok None /\
          chess_cell td = Ok None /\
          emoji_cell td = Ok None) as (R & G & C & E).
  { unfold resolve_table_cell, general_punctuation_cell, chess_cell, emoji_cell,
      attrib_getitem. rewrite H. simpl. repeat split; reflexivity. }
  split; [now repeat split|]. split.
  - intros body st. unfold generator_step. now rewrite R.
  - intros v st. unfold cell_step. now rewrite G, C, E.
Qed.

Lemma reserved_cell_is_skipped_witness :
  lookup (lit "title") (attrib reserved_cell) = Some (lit "Reserved") /\
  resolve_table_cell reserved_cell = Ok None /\
  chess_cell reserved_cell = Ok None.
Proof.
  split; [reflexivity|].
  destruct (reserved_cell_is_skipped reserved_cell) as [(R & _ & C & _) _];
    [reflexivity|].
  split; [exact R | exact C].
Defined.

(** A loop whose body passes over the items that [skip] marks runs as it
    does on the other items alone. *)
Lemma for_each_skip {A : Type} (skip : A -> bool)
      (body : A -> state -> result state) :
  (forall x st, skip x = true -> body x st = Ok st) ->
  forall l st,
    for_each l body st = for_each (filter (fun x => negb (skip x)) l) body st.
Proof.
  intros Hskip. induction l as [|x l IH]; intros st; simpl; [reflexivity|].
  destruct (skip x) eqn:E; simpl.
  - rewrite (Hskip x st E). simpl. apply IH.
  - destruct (body x st) as [st'|]; simpl; [apply IH | reflexivity].
Qed.

Lemma for_resolve_table_skips_reserved cells body st :
  for_each cells (generator_step body) st
  = for_each (filter (fun td => negb (is_reserved td)) cells)
             (generator_step body) st.
Proof.
  apply for_each_skip. intros td s H. apply attr_is_lookup in H.
  unfold generator_step, resolve_table_cell, attrib_getitem. now rewrite H.
Qed.

(** ** Empty names and glyphs *)

Lemma var_eqb_refl (v : var) : var_eqb v v = true.
Proof. now destruct v. Qed.

Lemma var_eqb_eq (a b : var) : var_eqb a b = true <-> a = b.
Proof.
  split; [|intros ->; apply var_eqb_refl].
  destruct a, b; simpl; intros H; try reflexivity; discriminate H.
Qed.

Lemma store_append_same v e st : store (append v e st) v = store st v ++ [e].
Proof. simpl. now rewrite var_eqb_refl. Qed.

Lemma store_append_other v w e st :
  var_eqb w v = false -> store (append v e st) w = store st w.
Proof. simpl. now intros ->. Qed.

Lemma store_new_list_same v st : store (new_list v st) v = [].
Proof. simpl. now rewrite var_eqb_refl. Qed.

(** A property of the state that every turn of a loop keeps holds when
    the loop ends. *)
Lemma for_each_invariant {A : Type} (P : state -> Prop)
      (body : A -> state -> result state) :
  (forall x s s', P s -> body x s = Ok s' -> P s') ->
  forall l s s', P s -> for_each l body s = Ok s' -> P s'.
Proof.
  intros Hbody. induction l as [|x l IH]; intros s s' Hs; simpl.
  - now intros [= <-].
  - destruct (body x s) as [s1|] eqn:E; simpl; [|discriminate].
    apply IH. now apply (Hbody x s).
Qed.

Lemma general_punctuation_cell_letter td name letter :
  general_punctuation_cell td = Ok (Some (name, letter)) ->
  letter <> [] /\ text_of (find (lit "a") td) = Some letter.
Proof.
  unfold general_punctuation_cell.
  destruct (attrib_getitem td (lit "title")) as [t|]; simpl; [|discriminate].
  destruct (eqb t (lit "Reserved")); [discriminate|].
  destruct (name_of_title t) as [n|]; simpl; [|discriminate].
  destruct (find (lit "a") td) as [a|]; simpl; [|discriminate].
  destruct (text a) as [[|c l]|]; try discriminate.
  intros [= <- <-]. split; [discriminate|reflexivity].
Qed.

Lemma dict_get_set_same k v c : dict_get k (dict_set k v c) = Some v.
Proof.
  induction c as [|[k' v'] c IH]; simpl.
  - now rewrite eqb_refl.
  - destruct (eqb k' k) eqn:E; simpl; now rewrite E.
Qed.

(** C1, as the claim states it, fails: [resolve_table] appends the
    trimmed name and letter whatever they are.  A cell whose text is one
    space gives an entry with an empty glyph, a title with nothing after
    its colon an entry with an empty name. *)
Lemma empty_glyph_and_name_are_emitted :
  listed (resolve_block blank_page currency_symbols
            "Currency Symbols (Unicode block)" "Currency Symbols"
            currency_symbols initial)
  = Ok [(lit "Currency Symbols", [(lit "SPACE", []); ([], lit "A")])].
Proof. reflexivity. Qed.

(** C1, amended: every entry the General Punctuation block puts into the
    catalog has a non-empty glyph, a cell whose child anchor has no text
    being passed over.  (The name is tested for emptiness nowhere.) *)
Theorem general_punctuation_glyphs (d : elem) (st st' : state) :
  general_punctuation_block d st = Ok st' ->
  dict_get (lit "General Punctuation") (characters st')
  = Some general_punctuation_symbols /\
  Forall (fun e => snd e <> []) (store st' general_punctuation_symbols).
Proof.
  unfold general_punctuation_block, title_anchor_block.
  destruct (title_anchor_table d (lit "General Punctuation")) as [t|];
    simpl; [|discriminate].
  destruct (for_cells _ _ _ _) as [s1|] eqn:E; simpl; [|discriminate].
  intros [= <-]. split; [apply dict_get_set_same|]. simpl.
  unfold for_cells in E.
  refine (for_each_invariant
            (fun s => Forall (fun e => snd e <> []) (store s general_punctuation_symbols))
            _ _ _ _ _ _ E).
  - intros td s s' Hs. unfold cell_step.
    destruct (general_punctuation_cell td) as [[[n l]|]|] eqn:C; simpl;
      try discriminate.
    + intros [= <-]. rewrite store_append_same. apply Forall_app. split; [exact Hs|].
      constructor; [|constructor]. simpl.
      now apply general_punctuation_cell_letter in C.
    + now intros [= <-].
  - rewrite store_new_list_same. constructor.
Qed.

Lemma general_punctuation_glyphs_witness :
  exists st',
    general_punctuation_block base_page initial = Ok st' /\
    store st' general_punctuation_symbols = [(lit "DAGGER", [8224])] /\
    Forall (fun e => snd e <> []) (store st' general_punctuation_symbols).
Proof.
  destruct (general_punctuation_block base_page initial) as [st'|] eqn:E;
    [|vm_compute in E; discriminate E].
  exists st'. split; [reflexivity|]. split.
  - vm_compute in E. injection E as <-. reflexivity.
  - exact (proj2 (general_punctuation_glyphs base_page initial st' E)).
Defined.

(** ** The end-to-end scenario *)

(** C3, as the claim states it, fails: the page has its one table five
    levels above the landmark anchor titled "Test Category" and its one
    data cell holds the direct text "A", but the extraction behind the
    title-anchor lookup (the General Punctuation block) reads the letter
    from a child anchor of the cell, and the cell has none. *)
Lemma title_anchor_scenario_aborts :
  (exists t, title_anchor_table test_page (lit "Test Category") = Ok t /\
             select_td_with_title (focus t) = [latin_a_cell]) /\
  lookup (lit "title") (attrib latin_a_cell)
  = Some (lit "U+0041: LATIN CAPITAL LETTER A") /\
  text latin_a_cell = Some (lit "A") /\
  title_anchor_block test_page (lit "Test Category")
    general_punctuation_symbols initial = Raise AttributeError.
Proof.
  split.
  - destruct (title_anchor_table test_page (lit "Test Category")) as [t|] eqn:E;
      [|vm_compute in E; discriminate E].
    exists t. split; [reflexivity|].
    vm_compute in E. injection E as <-. reflexivity.
  - repeat split; reflexivity.
Qed.

Lemma resolve_table_cell_direct_text td title f x c :
  lookup (lit "title") (attrib td) = Some title ->
  eqb title (lit "Reserved") = false ->
  getitem (split 58 title) 1 = Ok f ->
  text td = Some (x :: c) ->
  resolve_table_cell td = Ok (Some (td, strip f, strip (x :: c))).
Proof.
  intros Ht Hr Hf Hx.
  unfold resolve_table_cell, attrib_getitem, name_of_title, letter_of_cell.
  rewrite Ht. simpl. rewrite Hr, Hf, Hx. reflexivity.
Qed.

(** C3, amended: with the landmark found by [resolve_table] (an element
    titled "Test Category" below a bold element, the table five levels
    above it) the one data cell, titled "U+0041: LATIN CAPITAL LETTER A"
    and holding the direct text "A", gives exactly one entry, written
    out as ("Latin Capital Letter A", "A"). *)
Theorem latin_a_scenario (d : elem) (t : node) (td : elem) (v : var) (st : state) :
  resolve_table_landmark d (lit "Test Category") = Ok t ->
  select_td_with_title (focus t) = [td] ->
  lookup (lit "title") (attrib td) = Some (lit "U+0041: LATIN CAPITAL LETTER A") ->
  text td = Some (lit "A") ->
  yields (select_td_with_title (focus t))
  = Ok [(td, lit "LATIN CAPITAL LETTER A", lit "A")] /\
  stored v (for_resolve_table d "Test Category" (append_to v) (new_list v st))
  = Ok [(lit "LATIN CAPITAL LETTER A", lit "A")] /\
  titled [(lit "LATIN CAPITAL LETTER A", lit "A")]
  = [(lit "Latin Capital Letter A", lit "A")].
Proof.
  intros Ht Hcells Htitle Htext.
  assert (resolve_table_cell td
          = Ok (Some (td, lit "LATIN CAPITAL LETTER A", lit "A"))) as Hcell.
  { apply (resolve_table_cell_direct_text td _ (lit " LATIN CAPITAL LETTER A") 65 []
             Htitle); [reflexivity | reflexivity | exact Htext]. }
  split; [|split; [|reflexivity]].
  - rewrite Hcells. simpl. now rewrite Hcell.
  - unfold for_resolve_table. rewrite Ht. simpl. rewrite Hcells. simpl.
    unfold generator_step. rewrite Hcell. simpl.
    now rewrite var_eqb_refl.
Qed.

Lemma latin_a_scenario_witness :
  stored currency_symbols
    (for_resolve_table test_page "Test Category" (append_to currency_symbols)
       (new_list currency_symbols initial))
  = Ok [(lit "LATIN CAPITAL LETTER A", lit "A")].
Proof.
  destruct (resolve_table_landmark test_page (lit "Test Category")) as [t|] eqn:E;
    [|vm_compute in E; discriminate E].
  refine (proj1 (proj2 (latin_a_scenario test_page t latin_a_cell
                          currency_symbols initial E _ _ _)));
    [|reflexivity|reflexivity].
  vm_compute in E. injection E as <-. reflexivity.
Defined.

(** The title-anchor lookup gives the same entry when the letter is the
    text of a child anchor of the cell. *)
Lemma title_anchor_scenario_with_anchor :
  stored general_punctuation_symbols
    (title_anchor_block test_page_anchor (lit "Test Category")
       general_punctuation_symbols initial)
  = Ok [(lit "LATIN CAPITAL LETTER A", lit "A")].
Proof. reflexivity. Qed.

(** ** Superscripts and subscripts *)

Lemma route_cases y st :
  route y st
  = if has_superscript y then Ok (append superscript_symbols (entry_of y) st)
    else if has_subscript y then Ok (append subscript_symbols (entry_of y) st)
    else Raise AssertionError.
Proof.
  destruct y as [[td name] letter].
  unfold route, has_superscript, has_subscript, entry_of. simpl.
  destruct (contains (lit "SUPERSCRIPT") name); [reflexivity|].
  destruct (contains (lit "SUBSCRIPT") name); reflexivity.
Qed.

Lemma route_loop cells :
  forall ys st,
    yields cells = Ok ys ->
    (forallb routable ys = true ->
     exists st',
       for_each cells (generator_step route) st = Ok st' /\
       store st' superscript_symbols
       = store st superscript_symbols ++ map entry_of (filter has_superscript ys) /\
       store st' subscript_symbols
       = store st subscript_symbols ++ map entry_of (filter to_subscripts ys)) /\
    (forallb routable ys = false ->
     for_each cells (generator_step route) st = Raise AssertionError).
Proof.
  induction cells as [|td cells IH]; intros ys st; simpl.
  - intros [= <-]. split; [|discriminate]. intros _. exists st.
    now rewrite !app_nil_r.
  - unfold generator_step at 1 3.
    destruct (resolve_table_cell td) as [[y|]|]; simpl; [| |discriminate].
    + destruct (yields cells) as [ys'|] eqn:Y; simpl; [|discriminate].
      intros [= <-]. simpl. rewrite route_cases.
      unfold routable at 1 3, to_subscripts at 1.
      destruct (has_superscript y) eqn:Sup; simpl.
      * destruct (IH ys' (append superscript_symbols (entry_of y) st) eq_refl)
          as [Hok Hbad].
        split; [|exact Hbad].
        intros Hall. destruct (Hok Hall) as (st' & Hrun & Hsup & Hsub).
        exists st'. split; [exact Hrun|].
        rewrite Hsup, Hsub, store_append_same,
          (store_append_other superscript_symbols subscript_symbols) by reflexivity.
        now rewrite <- app_assoc.
      * destruct (has_subscript y) eqn:Sub; simpl; [|split; [discriminate|reflexivity]].
        destruct (IH ys' (append subscript_symbols (entry_of y) st) eq_refl)
          as [Hok Hbad].
        split; [|exact Hbad].
        intros Hall. destruct (Hok Hall) as (st' & Hrun & Hsup & Hsub).
        exists st'. split; [exact Hrun|].
        rewrite Hsup, Hsub, store_append_same,
          (store_append_other subscript_symbols superscript_symbols) by reflexivity.
        now rewrite <- app_assoc.
    + destruct (yields cells) as [ys'|] eqn:Y; simpl; [|discriminate].
      intros [= <-]. apply IH. reflexivity.
Qed.

Lemma route_loop_frame cells st st' :
  for_each cells (generator_step route) st = Ok st' ->
  characters st' = characters st /\
  (forall u, var_eqb u superscript_symbols = false ->
             var_eqb u subscript_symbols = false ->
             store st' u = store st u).
Proof.
  apply (for_each_invariant
           (fun s => characters s = characters st /\
                     (forall u, var_eqb u superscript_symbols = false ->
                                var_eqb u subscript_symbols = false ->
                                store s u = store st u))
           (generator_step route)).
  - intros td s s' [Hc Hu]. unfold generator_step.
    destruct (resolve_table_cell td) as [[y|]|]; simpl; [| |discriminate].
    + rewrite route_cases.
      destruct (has_superscript y); [|destruct (has_subscript y); [|discriminate]];
        intros [= <-]; (split; [exact Hc|]); intros u H1 H2; simpl.
      * rewrite H1. now apply Hu.
      * rewrite H2. now apply Hu.
    + intros [= <-]. now split.
  - now split.
Qed.

Lemma dict_get_set_other k v c k' :
  k <> k' -> dict_get k' (dict_set k v c) = dict_get k' c.
Proof.
  intros Hk. induction c as [|[k0 v0] c IH]; simpl.
  - apply eqb_neq in Hk. now rewrite Hk.
  - destruct (eqb k0 k) eqn:E0; simpl.
    + apply eqb_eq in E0. subst k0. apply eqb_neq in Hk. now rewrite Hk.
    + destruct (eqb k0 k'); [reflexivity | exact IH].
Qed.

Lemma dict_get_listed k v st :
  dict_get k (characters st) = Some v -> In (k, store st v) (items st).
Proof.
  unfold items. induction (characters st) as [|[k0 v0] c IH]; simpl; [discriminate|].
  destruct (eqb k0 k) eqn:E.
  - apply eqb_eq in E. subst k0. intros [= ->]. now left.
  - intros H. right. now apply IH.
Qed.

(** C10: when the generator runs to its end over the table of
    "Superscripts and Subscripts", every item goes to exactly one list:
    to [superscript_symbols] when its name has "SUPERSCRIPT" (tested
    first), else to [subscript_symbols] when it has "SUBSCRIPT"; the
    block then shows the first list under "Superscript Symbols" and the
    second under "Subscript Symbols" and changes no other list and no
    other category.  The loop ends normally when every name has one of
    the two words, and with the failed assertion as soon as one has
    neither. *)
Theorem superscripts_routing (d : elem) (st : state) (t : node)
        (ys : list (elem * pystr * pystr)) :
  resolve_table_landmark d (lit "Superscripts and Subscripts") = Ok t ->
  yields (select_td_with_title (focus t)) = Ok ys ->
  (forall y st0,
      route y st0
      = if has_superscript y then Ok (append superscript_symbols (entry_of y) st0)
        else if has_subscript y then Ok (append subscript_symbols (entry_of y) st0)
        else Raise AssertionError) /\
  (forallb routable ys = true ->
   exists st',
     superscripts_loop d st = Ok st' /\
     store st' superscript_symbols = map entry_of (filter has_superscript ys) /\
     store st' subscript_symbols = map entry_of (filter to_subscripts ys)) /\
  (forallb routable ys = true ->
   exists st',
     superscripts_block d st = Ok st' /\
     dict_get (lit "Superscript Symbols") (characters st')
     = Some superscript_symbols /\
     dict_get (lit "Subscript Symbols") (characters st')
     = Some subscript_symbols /\
     In (lit "Superscript Symbols", map entry_of (filter has_superscript ys))
        (items st') /\
     In (lit "Subscript Symbols", map entry_of (filter to_subscripts ys))
        (items st') /\
     (forall u, var_eqb u superscript_symbols = false ->
                var_eqb u subscript_symbols = false ->
                store st' u = store st u) /\
     (forall k, k <> lit "Superscript Symbols" ->
                k <> lit "Subscript Symbols" ->
                dict_get k (characters st') = dict_get k (characters st))) /\
  (forallb routable ys = false ->
   superscripts_loop d st = Raise AssertionError /\
   superscripts_block d st = Raise AssertionError).
Proof.
  intros Ht Hys. split; [apply route_cases|].
  unfold superscripts_block, superscripts_loop, for_resolve_table.
  rewrite Ht. simpl bind at 1.
  set (st0 := new_list superscript_symbols (new_list subscript_symbols st)).
  destruct (route_loop _ ys st0 Hys) as [Hok Hbad]. split; [|split].
  - intros Hall. destruct (Hok Hall) as (st' & Hrun & Hsup & Hsub).
    exists st'. split; [exact Hrun|]. now rewrite Hsup, Hsub.
  - intros Hall. destruct (Hok Hall) as (st1 & Hrun & Hsup & Hsub).
    destruct (route_loop_frame _ _ _ Hrun) as [Hc Hu].
    cbn [bind]. rewrite Hrun. cbn [bind]. eexists. split; [reflexivity|].
    set (st' := setitem "Superscript Symbols" superscript_symbols
                  (setitem "Subscript Symbols" subscript_symbols st1)).
    assert (dict_get (lit "Superscript Symbols") (characters st')
            = Some superscript_symbols) as Gsup
      by apply dict_get_set_same.
    assert (dict_get (lit "Subscript Symbols") (characters st')
            = Some subscript_symbols) as Gsub.
    { unfold st'. simpl characters.
      rewrite dict_get_set_other by (vm_compute; discriminate).
      apply dict_get_set_same. }
    split; [exact Gsup|]. split; [exact Gsub|].
    assert (store st' superscript_symbols = map entry_of (filter has_superscript ys))
      as Ssup by (simpl; now rewrite Hsup).
    assert (store st' subscript_symbols = map entry_of (filter to_subscripts ys))
      as Ssub by (simpl; now rewrite Hsub).
    split; [rewrite <- Ssup; now apply dict_get_listed|].
    split; [rewrite <- Ssub; now apply dict_get_listed|].
    split.
    + intros u H1 H2. simpl. rewrite (Hu u H1 H2). simpl. now rewrite H1, H2.
    + intros k K1 K2. unfold st'. simpl characters.
      rewrite !dict_get_set_other by congruence. now rewrite Hc.
  - intros Hsome. simpl. rewrite (Hbad Hsome). split; reflexivity.
Qed.

Lemma superscripts_routing_witness :
  exists st',
    superscripts_block base_page initial = Ok st' /\
    In (lit "Superscript Symbols", [(lit "SUPERSCRIPT ZERO", [8304])]) (items st') /\
    In (lit "Subscript Symbols", [(lit "SUBSCRIPT ZERO", [8320])]) (items st').
Proof.
  destruct (resolve_table_landmark base_page (lit "Superscripts and Subscripts"))
    as [t|] eqn:Et; [|vm_compute in Et; discriminate Et].
  destruct (yields (select_td_with_title (focus t))) as [ys|] eqn:Ey;
    [|vm_compute in Et; injection Et as <-; vm_compute in Ey; discriminate Ey].
  destruct (superscripts_routing base_page initial t ys Et Ey) as (_ & _ & Hok & _).
  vm_compute in Et. injection Et as <-. vm_compute in Ey. injection Ey as <-.
  destruct (Hok eq_refl) as (st' & Hrun & _ & _ & Hsup & Hsub & _).
  exists st'. split; [exact Hrun|]. split; [exact Hsup | exact Hsub].
Defined.

(** An item with neither word ends the run even when a later cell would
    have made the generator raise: the body runs between two items. *)
Lemma route_before_next_cell td cells y st :
  resolve_table_cell td = Ok (Some y) ->
  routable y = false ->
  for_each (td :: cells) (generator_step route) st = Raise AssertionError.
Proof.
  intros Hy Hr. simpl. unfold generator_step at 1. rewrite Hy. simpl.
  rewrite route_cases. unfold routable in Hr.
  apply orb_false_iff in Hr as [-> ->]. reflexivity.
Qed.

(** ** The catalog *)

Lemma for_each_characters {A : Type} (body : A -> state -> result state) :
  (forall x s s', body x s = Ok s' -> characters s' = characters s) ->
  forall l s s', for_each l body s = Ok s' -> characters s' = characters s.
Proof.
  intros Hbody l s s' H.
  refine (for_each_invariant (fun s0 => characters s0 = characters s) body _ l s s' eq_refl H).
  intros x s1 s2 Hs1 Hx. rewrite <- Hs1. exact (Hbody x s1 s2 Hx).
Qed.

Lemma cell_step_characters cell v td s s' :
  cell_step cell v td s = Ok s' -> characters s' = characters s.
Proof.
  unfold cell_step. destruct (cell td) as [[e|]|]; simpl; try discriminate;
    now intros [= <-].
Qed.

Lemma generator_step_characters body td s s' :
  (forall y s s', body y s = Ok s' -> characters s' = characters s) ->
  generator_step body td s = Ok s' -> characters s' = characters s.
Proof.
  intros Hbody. unfold generator_step.
  destruct (resolve_table_cell td) as [[y|]|]; simpl; try discriminate.
  - apply Hbody.
  - now intros [= <-].
Qed.

Lemma append_to_characters v y s s' :
  append_to v y s = Ok s' -> characters s' = characters s.
Proof. destruct y as [[td n] l]. simpl. now intros [= <-]. Qed.

Lemma route_characters y s s' :
  route y s = Ok s' -> characters s' = characters s.
Proof.
  rewrite route_cases.
  destruct (has_superscript y); [now intros [= <-]|].
  destruct (has_subscript y); [now intros [= <-]|discriminate].
Qed.

Lemma for_resolve_table_characters d title body s s' :
  (forall y s s', body y s = Ok s' -> characters s' = characters s) ->
  for_resolve_table d title body s = Ok s' -> characters s' = characters s.
Proof.
  intros Hbody. unfold for_resolve_table.
  destruct (resolve_table_landmark d (lit title)) as [t|]; simpl; [|discriminate].
  apply for_each_characters. intros td s1 s2.
  now apply generator_step_characters.
Qed.

Lemma for_cells_characters t cell v s s' :
  for_cells t cell v s = Ok s' -> characters s' = characters s.
Proof.
  apply for_each_characters. intros td s1 s2. apply cell_step_characters.
Qed.

(** What each block does to [characters]. *)

Lemma unicode_symbols_block_characters d s s' :
  unicode_symbols_block d s = Ok s' ->
  characters s' = dict_set (lit "Unicode Symbols") unicode_symbols (characters s).
Proof.
  unfold unicode_symbols_block.
  destruct (for_each _ _ _) as [s1|] eqn:E; simpl; [|discriminate].
  intros [= <-]. simpl. apply for_each_characters in E; [now rewrite E|].
  intros tr s2 s3. destruct (unicode_symbols_row tr); simpl; [|discriminate].
  now intros [= <-].
Qed.

Lemma general_punctuation_block_characters d s s' :
  general_punctuation_block d s = Ok s' ->
  characters s'
  = dict_set (lit "General Punctuation") general_punctuation_symbols (characters s).
Proof.
  unfold general_punctuation_block, title_anchor_block.
  destruct (title_anchor_table _ _) as [t|]; simpl; [|discriminate].
  destruct (for_cells _ _ _ _) as [s1|] eqn:E; simpl; [|discriminate].
  intros [= <-]. simpl. apply for_cells_characters in E. now rewrite E.
Qed.

Lemma superscripts_block_characters d s s' :
  superscripts_block d s = Ok s' ->
  characters s'
  = dict_set (lit "Superscript Symbols") superscript_symbols
      (dict_set (lit "Subscript Symbols") subscript_symbols (characters s)).
Proof.
  unfold superscripts_block, superscripts_loop.
  destruct (for_resolve_table _ _ _ _) as [s1|] eqn:E; simpl; [|discriminate].
  intros [= <-]. simpl.
  apply for_resolve_table_characters in E; [now rewrite E|].
  apply route_characters.
Qed.

Lemma resolve_block_characters d v title key w s s' :
  resolve_block d v title key w s = Ok s' ->
  characters s' = dict_set (lit key) w (characters s).
Proof.
  unfold resolve_block.
  destruct (for_resolve_table _ _ _ _) as [s1|] eqn:E; simpl; [|discriminate].
  intros [= <-]. simpl.
  apply for_resolve_table_characters in E; [now rewrite E|].
  apply append_to_characters.
Qed.

Lemma dingbats_block_characters d s s' :
  dingbats_block d s = Ok s' ->
  characters s' = dict_set (lit "Dingbats") dingbats_symbols (characters s).
Proof.
  unfold dingbats_block.
  destruct (dingbats_table d) as [t|]; simpl; [|discriminate].
  destruct (for_each _ _ _) as [s1|] eqn:E; simpl; [|discriminate].
  intros [= <-]. simpl. apply for_each_characters in E; [now rewrite E|].
  intros tr s2 s3. destruct (dingbats_row tr); simpl; [|discriminate].
  now intros [= <-].
Qed.

Lemma chess_block_characters d s s' :
  chess_block d s = Ok s' ->
  characters s' = dict_set (lit "Chess Symbols") chess_symbols (characters s).
Proof.
  unfold chess_block.
  destruct (chess_table d) as [t|]; simpl; [|discriminate].
  destruct (for_cells _ _ _ _) as [s1|] eqn:E; simpl; [|discriminate].
  intros [= <-]. simpl. apply for_cells_characters in E. now rewrite E.
Qed.

Lemma emoji_block_characters e s s' :
  emoji_block e s = Ok s' ->
  characters s' = dict_set (lit "Emojis") emoji_symbols (characters s).
Proof.
  unfold emoji_block.
  destruct (emoji_table e) as [t|]; simpl; [|discriminate].
  destruct (for_cells _ _ _ _) as [s1|] eqn:E; simpl; [|discriminate].
  intros [= <-]. simpl. apply for_cells_characters in E. now rewrite E.
Qed.

(** Split the run at its next block, or see that it has ended there. *)
Ltac next_block H :=
  match type of H with
  | bind ?m _ = Ok _ =>
      let s := fresh "s" in
      let E := fresh "E" in
      destruct m as [s|] eqn:E; [|discriminate H];
      cbn [bind] in H;
      first [ apply unicode_symbols_block_characters in E
            | apply general_punctuation_block_characters in E
            | apply superscripts_block_characters in E
            | apply resolve_block_characters in E
            | apply dingbats_block_characters in E
            | apply chess_block_characters in E ]
  end.

Lemma scrape_characters d e st : scrape d e = Ok st -> characters st = catalog.
Proof.
  intros H. unfold scrape in H. cbv zeta in H.
  repeat next_block H.
  apply emoji_block_characters in H.
  repeat match goal with
         | E : characters _ = _ |- _ => rewrite E; clear E
         end.
  reflexivity.
Qed.

Lemma dict_get_In k v c : dict_get k c = Some v -> In (k, v) c.
Proof.
  induction c as [|[k' v'] c IH]; simpl; [discriminate|].
  destruct (eqb k' k) eqn:E.
  - apply eqb_eq in E. intros [= ->]. left. now subst.
  - intros H. right. now apply IH.
Qed.

Lemma shared_pair_spec k1 k2 :
  shared_pair k1 k2 = true <->
  (k1 = lit "Math Symbols" /\ k2 = lit "Misc Technical Symbols") \/
  (k1 = lit "Misc Technical Symbols" /\ k2 = lit "Math Symbols").
Proof.
  unfold shared_pair. now rewrite orb_true_iff, !andb_true_iff, !eqb_eq.
Qed.

Lemma sharing_is_exact_spec c :
  sharing_is_exact c = true ->
  forall k1 k2 v1 v2,
    k1 <> k2 -> In (k1, v1) c -> In (k2, v2) c ->
    (v1 = v2 <-> shared_pair k1 k2 = true).
Proof.
  unfold sharing_is_exact. intros H k1 k2 v1 v2 Hk H1 H2.
  rewrite forallb_forall in H. specialize (H _ H1).
  rewrite forallb_forall in H. specialize (H _ H2). simpl in H.
  apply eqb_neq in Hk. rewrite Hk in H. simpl in H.
  apply Bool.eqb_prop in H. rewrite <- H. symmetry. apply var_eqb_eq.
Qed.

(** C5: in the catalog of a finished run "Misc Technical Symbols" holds
    the list object of [math_symbols], the one that "Math Symbols"
    holds, and no two other categories hold one list object; the list
    filled from the "Miscellaneous Technical" table is under no
    category. *)
Theorem catalog_sharing (d e : elem) (st : state) :
  scrape d e = Ok st ->
  dict_get (lit "Math Symbols") (characters st) = Some math_symbols /\
  dict_get (lit "Misc Technical Symbols") (characters st) = Some math_symbols /\
  (forall k1 k2 v1 v2,
      k1 <> k2 ->
      dict_get k1 (characters st) = Some v1 ->
      dict_get k2 (characters st) = Some v2 ->
      (v1 = v2 <->
       (k1 = lit "Math Symbols" /\ k2 = lit "Misc Technical Symbols") \/
       (k1 = lit "Misc Technical Symbols" /\ k2 = lit "Math Symbols"))) /\
  (forall k, dict_get k (characters st) <> Some misc_technical_symbols).
Proof.
  intros H. apply scrape_characters in H. rewrite H.
  split; [reflexivity|]. split; [reflexivity|]. split.
  - intros k1 k2 v1 v2 Hk H1 H2. rewrite <- shared_pair_spec.
    apply (sharing_is_exact_spec catalog); [reflexivity | exact Hk | |];
      now apply dict_get_In.
  - intros k Hk. apply dict_get_In in Hk.
    unfold catalog in Hk. simpl in Hk.
    repeat (destruct Hk as [Hk|Hk]; [discriminate Hk|]). exact Hk.
Qed.

Lemma catalog_sharing_witness :
  exists st,
    scrape base_page emoji_page = Ok st /\
    dict_get (lit "Math Symbols") (characters st) = Some math_symbols /\
    dict_get (lit "Misc Technical Symbols") (characters st) = Some math_symbols.
Proof.
  assert (finished (scrape base_page emoji_page) = true) as F
    by (vm_compute; reflexivity).
  destruct (scrape base_page emoji_page) as [st|] eqn:E; [|discriminate F].
  exists st. split; [reflexivity|].
  destruct (catalog_sharing base_page emoji_page st E) as (H1 & H2 & _).
  split; [exact H1 | exact H2].
Defined.

Lemma finished_bind (m : result state) (k : state -> result state) :
  (forall s, finished (k s) = false) -> finished (bind m k) = false.
Proof. intros H. destruct m as [s|]; [apply H | reflexivity]. Qed.

Lemma finished_bind_raise (m : result state) (k : state -> result state) (e : exn) :
  m = Raise e -> finished (bind m k) = false.
Proof. now intros ->. Qed.

(** The run as a whole does not come to its end when the page lacks the
    landmark of one of the plain blocks. *)
Lemma scrape_aborts_without_landmark d e title :
  In title plain_titles ->
  select_b_title d (lit title) = [] ->
  finished (scrape d e) = false.
Proof.
  intros Hin H. unfold scrape. cbv zeta.
  unfold plain_titles in Hin. simpl in Hin.
  repeat (destruct Hin as [<-|Hin];
          [repeat first
             [ apply (finished_bind_raise _ _ IndexError);
               apply resolve_block_no_match; exact H
             | apply finished_bind; intros ? ]|]).
  destruct Hin.
Qed.

(** * Further properties *)

(** ** Loops as lists *)

Lemma untouched_refl vs st : untouched vs st st.
Proof. intros u _. reflexivity. Qed.

Lemma untouched_trans vs s1 s2 s3 :
  untouched vs s1 s2 -> untouched vs s2 s3 -> untouched vs s1 s3.
Proof. intros H12 H23 u Hu. now rewrite (H23 u Hu), (H12 u Hu). Qed.

Lemma untouched_append v e st : untouched [v] st (append v e st).
Proof.
  intros u Hu. simpl in Hu. rewrite orb_false_r in Hu.
  now apply store_append_other.
Qed.

Lemma untouched_new_list v st : untouched [v] st (new_list v st).
Proof.
  intros u Hu. simpl in Hu. rewrite orb_false_r in Hu. simpl. now rewrite Hu.
Qed.

Lemma untouched_more vs ws s1 s2 :
  (forall u, existsb (var_eqb u) ws = false -> existsb (var_eqb u) vs = false) ->
  untouched vs s1 s2 -> untouched ws s1 s2.
Proof. intros Hsub H u Hu. apply H. now apply Hsub. Qed.

(** A loop whose body is [cell_step f v] ends as [collect f] does: with
    its exception, or with the collected entries appended to [v] and
    nothing else changed. *)
Lemma for_each_collect f v (body : elem -> state -> result state) :
  (forall x st, body x st = cell_step f v x st) ->
  forall l st,
    match collect f l with
    | Ok es =>
        exists st',
          for_each l body st = Ok st' /\
          store st' v = store st v ++ es /\
          untouched [v] st st' /\
          characters st' = characters st
    | Raise e => for_each l body st = Raise e
    end.
Proof.
  intros Hbody. induction l as [|x l IH]; intros st; simpl.
  - exists st. rewrite app_nil_r.
    split; [reflexivity|]. split; [reflexivity|].
    split; [apply untouched_refl | reflexivity].
  - rewrite Hbody. unfold cell_step.
    destruct (f x) as [[e|]|ex]; simpl; [| |reflexivity].
    + specialize (IH (append v e st)).
      destruct (collect f l) as [es|ex]; simpl; [|exact IH].
      destruct IH as (st' & Hrun & Hv & Hu & Hc).
      exists st'. split; [exact Hrun|]. split; [|split].
      * rewrite Hv, store_append_same, <- app_assoc. reflexivity.
      * exact (untouched_trans _ _ _ _ (untouched_append v e st) Hu).
      * exact Hc.
    + specialize (IH st).
      destruct (collect f l) as [es|ex]; simpl; exact IH.
Qed.

Lemma plain_step v td st :
  generator_step (append_to v) td st = cell_step plain_cell v td st.
Proof.
  unfold generator_step, cell_step, plain_cell.
  destruct (resolve_table_cell td) as [[[[c n] l]|]|]; reflexivity.
Qed.

Lemma collect_plain cells :
  collect plain_cell cells = (ys <- yields cells;; Ok (map entry_of ys)).
Proof.
  induction cells as [|td cells IH]; simpl; [reflexivity|].
  unfold plain_cell at 1.
  destruct (resolve_table_cell td) as [[y|]|]; simpl; [| |reflexivity];
    rewrite IH; destruct (yields cells); reflexivity.
Qed.

Lemma resolve_block_collect d v title key w st :
  match entries d title with
  | Ok es =>
      exists st',
        resolve_block d v title key w st = Ok st' /\
        store st' v = es /\
        untouched [v] st st' /\
        characters st' = dict_set (lit key) w (characters st)
  | Raise e => resolve_block d v title key w st = Raise e
  end.
Proof.
  unfold entries, resolve_block, for_resolve_table.
  destruct (resolve_table_landmark d (lit title)) as [t|ex]; simpl; [|reflexivity].
  pose proof (for_each_collect plain_cell v (generator_step (append_to v))
                (plain_step v) (select_td_with_title (focus t)) (new_list v st)) as H.
  rewrite collect_plain in H.
  destruct (yields (select_td_with_title (focus t))) as [ys|ex]; simpl in *.
  - destruct H as (st' & Hrun & Hv & Hu & Hc).
    rewrite Hrun. simpl. eexists. split; [reflexivity|]. simpl.
    split; [|split].
    + rewrite Hv. now rewrite var_eqb_refl.
    + exact (untouched_trans _ _ _ _ (untouched_new_list v st) Hu).
    + now rewrite Hc.
  - now rewrite H.
Qed.

Lemma resolve_block_ok d v title key w st st' :
  resolve_block d v title key w st = Ok st' ->
  entries d title = Ok (store st' v) /\ untouched [v] st st'.
Proof.
  intros H. pose proof (resolve_block_collect d v title key w st) as C.
  destruct (entries d title) as [es|ex].
  - destruct C as (st2 & Hrun & Hv & Hu & _).
    rewrite Hrun in H. injection H as <-. now rewrite Hv.
  - rewrite C in H. discriminate H.
Qed.

Lemma for_each_untouched {A : Type} vs (body : A -> state -> result state) :
  (forall x s s', body x s = Ok s' -> untouched vs s s') ->
  forall l s s', for_each l body s = Ok s' -> untouched vs s s'.
Proof.
  intros Hbody l s s' H.
  refine (for_each_invariant (fun s0 => untouched vs s s0) body _ l s s'
            (untouched_refl vs s) H).
  intros x s1 s2 Hs1 Hx. exact (untouched_trans _ _ _ _ Hs1 (Hbody x s1 s2 Hx)).
Qed.

Lemma cell_step_untouched cell v td s s' :
  cell_step cell v td s = Ok s' -> untouched [v] s s'.
Proof.
  unfold cell_step. destruct (cell td) as [[e|]|]; simpl; try discriminate;
    intros [= <-]; [apply untouched_append | apply untouched_refl].
Qed.

Lemma for_cells_untouched t cell v s s' :
  for_cells t cell v s = Ok s' -> untouched [v] s s'.
Proof.
  apply for_each_untouched. intros td s1 s2. apply cell_step_untouched.
Qed.

Lemma row_loop_untouched (f : elem -> result entry) v l s s' :
  for_each l (fun tr st => e <- f tr;; Ok (append v e st)) s = Ok s' ->
  untouched [v] s s'.
Proof.
  apply for_each_untouched. intros tr s1 s2.
  destruct (f tr) as [e|]; simpl; [|discriminate].
  intros [= <-]. apply untouched_append.
Qed.

Lemma unicode_symbols_block_untouched d s s' :
  unicode_symbols_block d s = Ok s' -> untouched [unicode_symbols] s s'.
Proof.
  unfold unicode_symbols_block.
  destruct (for_each _ _ _) as [s1|] eqn:E; simpl; [|discriminate].
  intros [= <-]. apply row_loop_untouched in E.
  intros u Hu. simpl. rewrite (E u Hu). exact (untouched_new_list _ s u Hu).
Qed.

Lemma general_punctuation_block_untouched d s s' :
  general_punctuation_block d s = Ok s' ->
  untouched [general_punctuation_symbols] s s'.
Proof.
  unfold general_punctuation_block, title_anchor_block.
  destruct (title_anchor_table _ _) as [t|]; simpl; [|discriminate].
  destruct (for_cells _ _ _ _) as [s1|] eqn:E; simpl; [|discriminate].
  intros [= <-]. apply for_cells_untouched in E.
  intros u Hu. simpl. rewrite (E u Hu). exact (untouched_new_list _ s u Hu).
Qed.

Lemma route_untouched y s s' :
  route y s = Ok s' -> untouched [subscript_symbols; superscript_symbols] s s'.
Proof.
  rewrite route_cases.
  destruct (has_superscript y); [|destruct (has_subscript y); [|discriminate]];
    intros [= <-] u Hu; simpl in Hu; apply orb_false_iff in Hu as [H1 H2];
    rewrite orb_false_r in H2; now apply store_append_other.
Qed.

Lemma superscripts_block_untouched d s s' :
  superscripts_block d s = Ok s' ->
  untouched [subscript_symbols; superscript_symbols] s s'.
Proof.
  unfold superscripts_block, superscripts_loop, for_resolve_table.
  destruct (resolve_table_landmark _ _) as [t|]; simpl; [|discriminate].
  destruct (for_each _ _ _) as [s1|] eqn:E; simpl; [|discriminate].
  intros [= <-].
  apply (for_each_untouched [subscript_symbols; superscript_symbols]) in E.
  - intros u Hu. simpl. rewrite (E u Hu). simpl.
    simpl in Hu. apply orb_false_iff in Hu as [H1 H2].
    rewrite orb_false_r in H2. now rewrite H1, H2.
  - intros td s2 s3. unfold generator_step.
    destruct (resolve_table_cell td) as [[y|]|]; simpl; try discriminate.
    + apply route_untouched.
    + intros [= <-]. apply untouched_refl.
Qed.

Lemma dingbats_block_untouched d s s' :
  dingbats_block d s = Ok s' -> untouched [dingbats_symbols] s s'.
Proof.
  unfold dingbats_block.
  destruct (dingbats_table d) as [t|]; simpl; [|discriminate].
  destruct (for_each _ _ _) as [s1|] eqn:E; simpl; [|discriminate].
  intros [= <-]. apply row_loop_untouched in E.
  intros u Hu. simpl. rewrite (E u Hu). exact (untouched_new_list _ s u Hu).
Qed.

Lemma chess_block_untouched d s s' :
  chess_block d s = Ok s' -> untouched [chess_symbols] s s'.
Proof.
  unfold chess_block.
  destruct (chess_table d) as [t|]; simpl; [|discriminate].
  destruct (for_cells _ _ _ _) as [s1|] eqn:E; simpl; [|discriminate].
  intros [= <-]. apply for_cells_untouched in E.
  intros u Hu. simpl. rewrite (E u Hu). exact (untouched_new_list _ s u Hu).
Qed.

Lemma emoji_block_untouched e s s' :
  emoji_block e s = Ok s' -> untouched [emoji_symbols] s s'.
Proof.
  unfold emoji_block.
  destruct (emoji_table e) as [t|]; simpl; [|discriminate].
  destruct (for_cells _ _ _ _) as [s1|] eqn:E; simpl; [|discriminate].
  intros [= <-]. apply for_cells_untouched in E.
  intros u Hu. simpl. rewrite (E u Hu). exact (untouched_new_list _ s u Hu).
Qed.

(** ** The lists of a finished run *)

(** Split the run at its next block and keep what the block says of the
    lists. *)
Ltac next_lists H :=
  match type of H with
  | bind ?m _ = Ok _ =>
      let s := fresh "s" in
      let E := fresh "E" in
      destruct m as [s|] eqn:E; [|discriminate H];
      cbn [bind] in H;
      first [ apply resolve_block_ok in E; destruct E as [? ?]
            | apply unicode_symbols_block_untouched in E
            | apply general_punctuation_block_untouched in E
            | apply superscripts_block_untouched in E
            | apply dingbats_block_untouched in E
            | apply chess_block_untouched in E ]
  end.

(** Read a list of the final state back to the block that filled it. *)
Ltac back_to_block :=
  repeat match goal with
         | U : untouched _ ?s ?s' |- context [store ?s' ?u] =>
             rewrite (U u eq_refl)
         end;
  assumption.

Lemma scrape_lists d e st :
  scrape d e = Ok st ->
  Forall (fun vt => entries d (snd vt) = Ok (store st (fst vt))) plain_lists.
Proof.
  intros H. unfold scrape in H. cbv zeta in H.
  repeat next_lists H.
  apply emoji_block_untouched in H.
  unfold plain_lists.
  repeat (constructor; [simpl fst; simpl snd; back_to_block|]).
  constructor.
Qed.

(** X1: in a finished run every list filled by a plain loop holds what
    [resolve_table] yields for the title passed to it, in order; this
    includes [misc_technical_symbols], which no category shows. *)
Theorem scrape_plain_lists (d e : elem) (st : state) (v : var) (title : string) :
  scrape d e = Ok st ->
  In (v, title) plain_lists ->
  entries d title = Ok (store st v).
Proof.
  intros H Hin. apply scrape_lists in H.
  rewrite Forall_forall in H. exact (H (v, title) Hin).
Qed.

Lemma scrape_plain_lists_witness :
  entries base_page "Number Forms" = Ok [(lit "LATIN CAPITAL LETTER A", lit "A")] /\
  exists st,
    scrape base_page emoji_page = Ok st /\
    entries base_page "Number Forms" = Ok (store st number_forms).
Proof.
  split; [reflexivity|].
  assert (finished (scrape base_page emoji_page) = true) as F
    by (vm_compute; reflexivity).
  destruct (scrape base_page emoji_page) as [st|] eqn:E; [|discriminate F].
  exists st. split; [reflexivity|].
  apply (scrape_plain_lists base_page emoji_page st number_forms "Number Forms" E).
  simpl. auto 10.
Defined.

(** X2: in a finished run the lists shown as "Block Element Symbols" and
    as "Geometric Shape Symbols" hold the entries of the "Box Drawing"
    table, the same as "Box Drawing Symbols": all three loops pass the
    title "Box Drawing". *)
Theorem box_drawing_thrice (d e : elem) (st : state) :
  scrape d e = Ok st ->
  entries d "Box Drawing" = Ok (store st box_drawing_symbols) /\
  store st block_element_symbols = store st box_drawing_symbols /\
  store st geometric_shape_symbols = store st box_drawing_symbols /\
  exists es,
    In (lit "Box Drawing Symbols", es) (items st) /\
    In (lit "Block Element Symbols", es) (items st) /\
    In (lit "Geometric Shape Symbols", es) (items st).
Proof.
  intros H. pose proof (scrape_characters d e st H) as Hc.
  apply scrape_lists in H. rewrite Forall_forall in H.
  assert (entries d "Box Drawing" = Ok (store st box_drawing_symbols)) as B
    by (apply (H (box_drawing_symbols, "Box Drawing"%string)); simpl; auto 20).
  assert (entries d "Box Drawing" = Ok (store st block_element_symbols)) as K
    by (apply (H (block_element_symbols, "Box Drawing"%string)); simpl; auto 20).
  assert (entries d "Box Drawing" = Ok (store st geometric_shape_symbols)) as G
    by (apply (H (geometric_shape_symbols, "Box Drawing"%string)); simpl; auto 20).
  rewrite B in K, G. injection K as K. injection G as G.
  split; [exact B|]. split; [now symmetry|]. split; [now symmetry|].
  exists (store st box_drawing_symbols). unfold items. rewrite Hc.
  unfold catalog. simpl. rewrite <- K, <- G.
  repeat split; repeat (first [left; reflexivity | right]).
Qed.

Lemma box_drawing_thrice_witness :
  exists st,
    scrape base_page emoji_page = Ok st /\
    store st block_element_symbols = store st box_drawing_symbols.
Proof.
  assert (finished (scrape base_page emoji_page) = true) as F
    by (vm_compute; reflexivity).
  destruct (scrape base_page emoji_page) as [st|] eqn:E; [|discriminate F].
  exists st. split; [reflexivity|].
  exact (proj1 (proj2 (box_drawing_thrice base_page emoji_page st E))).
Defined.

(** X3: a finished run shows the same twenty-three categories in the same
    order whatever the pages hold, and its output has one group for
    each. *)
Theorem catalog_order (d e : elem) (st : state) :
  scrape d e = Ok st ->
  map fst (items st) = map fst catalog /\
  List.length (out st) = 23%nat.
Proof.
  intros H. apply scrape_characters in H.
  unfold out, items. rewrite !length_map, !map_map, H. split; reflexivity.
Qed.

Lemma catalog_order_witness :
  exists st,
    scrape base_page emoji_page = Ok st /\
    map fst (items st) = map fst catalog.
Proof.
  assert (finished (scrape base_page emoji_page) = true) as F
    by (vm_compute; reflexivity).
  destruct (scrape base_page emoji_page) as [st|] eqn:E; [|discriminate F].
  exists st. split; [reflexivity|].
  exact (proj1 (catalog_order base_page emoji_page st E)).
Defined.

(** X4: a plain block ends as [list(resolve_table(title))] would: with
    the same exception, or with its list holding the yielded (name,
    letter) pairs in order, no other list changed, and its key set in
    [characters]. *)
Theorem plain_block_is_generator_list
        (d : elem) (v : var) (title key : string) (w : var) (st : state) :
  match entries d title with
  | Ok es =>
      exists st',
        resolve_block d v title key w st = Ok st' /\
        store st' v = es /\
        untouched [v] st st' /\
        characters st' = dict_set (lit key) w (characters st)
  | Raise e => resolve_block d v title key w st = Raise e
  end.
Proof. apply resolve_block_collect. Qed.

(** ** Trimmed names and letters *)

Lemma lstrip_starts_clean s : starts_clean (lstrip s) = true.
Proof.
  induction s as [|c s IH]; simpl; [reflexivity|].
  destruct (isspace c) eqn:E; [exact IH|]. simpl. now rewrite E.
Qed.

Lemma lstrip_app_clean a c :
  isspace c = false -> lstrip (a ++ [c]) = lstrip a ++ [c].
Proof.
  intros Hc. induction a as [|x a IH]; simpl.
  - now rewrite Hc.
  - destruct (isspace x); [exact IH | reflexivity].
Qed.

Lemma strip_trimmed s : trimmed (strip s) = true.
Proof.
  unfold trimmed, strip, rstrip. rewrite rev_involutive, lstrip_starts_clean.
  rewrite andb_true_r.
  pose proof (lstrip_starts_clean s) as H.
  destruct (lstrip s) as [|c t]; [reflexivity|].
  simpl in H. apply negb_true_iff in H.
  simpl rev. rewrite (lstrip_app_clean _ _ H), rev_app_distr. simpl. now rewrite H.
Qed.

Lemma lstrip_clean s : starts_clean s = true -> lstrip s = s.
Proof.
  destruct s as [|c s]; simpl; [reflexivity|].
  intros H. apply negb_true_iff in H. now rewrite H.
Qed.

Lemma strip_of_trimmed s : trimmed s = true -> strip s = s.
Proof.
  unfold trimmed. intros H. apply andb_true_iff in H as [H1 H2].
  unfold strip, rstrip. rewrite (lstrip_clean s H1), (lstrip_clean _ H2).
  apply rev_involutive.
Qed.

Lemma name_of_title_trimmed t n : name_of_title t = Ok n -> trimmed n = true.
Proof.
  unfold name_of_title. destruct (getitem (split 58 t) 1) as [f|]; simpl;
    [|discriminate].
  intros [= <-]. apply strip_trimmed.
Qed.

Lemma strip_m_trimmed x l : strip_m x = Ok l -> trimmed l = true.
Proof.
  destruct x as [s|]; simpl; [|discriminate]. intros [= <-]. apply strip_trimmed.
Qed.

(** X5: whatever [resolve_table], the chess loop and the emoji loop
    append has a name and a letter without white space at either end,
    and trimming them again changes nothing. *)
Theorem appended_entries_are_trimmed (td : elem) (name letter : pystr) :
  resolve_table_cell td = Ok (Some (td, name, letter)) \/
  chess_cell td = Ok (Some (name, letter)) \/
  emoji_cell td = Ok (Some (name, letter)) ->
  trimmed name = true /\ trimmed letter = true /\
  strip name = name /\ strip letter = letter.
Proof.
  intros H.
  assert (trimmed name = true /\ trimmed letter = true) as [Hn Hl].
  { destruct H as [H | [H | H]].
    - unfold resolve_table_cell in H.
      destruct (attrib_getitem td (lit "title")) as [t|]; simpl in H; [|discriminate].
      destruct (eqb t (lit "Reserved")); [discriminate|].
      destruct (name_of_title t) as [n|] eqn:N; simpl in H; [|discriminate].
      destruct (letter_of_cell td) as [x|]; simpl in H; [|discriminate].
      destruct (strip_m x) as [l|] eqn:L; simpl in H; [|discriminate].
      injection H as <- <-.
      split; [exact (name_of_title_trimmed _ _ N) | exact (strip_m_trimmed _ _ L)].
    - unfold chess_cell in H.
      destruct (attrib_getitem td (lit "title")) as [t|]; simpl in H; [|discriminate].
      destruct (eqb t (lit "Reserved")); [discriminate|].
      destruct (name_of_title t) as [n|] eqn:N; simpl in H; [|discriminate].
      destruct (strip_m (text td)) as [l|] eqn:L; simpl in H; [|discriminate].
      injection H as <- <-.
      split; [exact (name_of_title_trimmed _ _ N) | exact (strip_m_trimmed _ _ L)].
    - unfold emoji_cell in H.
      destruct (attrib_getitem td (lit "title")) as [t|]; simpl in H; [|discriminate].
      destruct (eqb t (lit "Reserved")); [discriminate|].
      destruct (name_of_title t) as [n|] eqn:N; simpl in H; [|discriminate].
      destruct (if falsy (text td) then text_m (find (lit "a") td) else Ok (text td))
        as [x|]; simpl in H; [|discriminate].
      destruct (strip_m x) as [l|] eqn:L; simpl in H; [|discriminate].
      injection H as <- <-.
      split; [exact (name_of_title_trimmed _ _ N) | exact (strip_m_trimmed _ _ L)]. }
  repeat split; try assumption; now apply strip_of_trimmed.
Qed.

Lemma appended_entries_are_trimmed_witness :
  resolve_table_cell (cell "U+0041:  LATIN CAPITAL LETTER A " (Some (lit " A ")) [])
  = Ok (Some (cell "U+0041:  LATIN CAPITAL LETTER A " (Some (lit " A ")) [],
              lit "LATIN CAPITAL LETTER A", lit "A")) /\
  trimmed (lit "LATIN CAPITAL LETTER A") = true /\ trimmed (lit "A") = true.
Proof.
  split; [reflexivity|].
  destruct (appended_entries_are_trimmed
              (cell "U+0041:  LATIN CAPITAL LETTER A " (Some (lit " A ")) [])
              (lit "LATIN CAPITAL LETTER A") (lit "A")) as (Hn & Hl & _).
  - left. reflexivity.
  - split; [exact Hn | exact Hl].
Defined.

(** X6: the General Punctuation loop appends the text of the cell's first
    child anchor as it is, white space included (so the spaces of that
    block keep their glyph), while the name is trimmed; the direct text
    of the cell is not read. *)
Theorem general_punctuation_letter_verbatim
        (td a : elem) (t f : pystr) (c : N) (l : pystr) :
  lookup (lit "title") (attrib td) = Some t ->
  t <> lit "Reserved" ->
  getitem (split 58 t) 1 = Ok f ->
  find (lit "a") td = Some a ->
  text a = Some (c :: l) ->
  general_punctuation_cell td = Ok (Some (strip f, c :: l)).
Proof.
  intros Ht Hr Hf Ha Hx. apply eqb_neq in Hr.
  unfold general_punctuation_cell, attrib_getitem, name_of_title.
  rewrite Ht. simpl. rewrite Hr, Hf. simpl. rewrite Ha. simpl. now rewrite Hx.
Qed.

Lemma general_punctuation_letter_verbatim_witness :
  general_punctuation_cell (cell "U+2003: EM SPACE" (Some (lit "x")) [anchor [8195]])
  = Ok (Some (lit "EM SPACE", [8195])) /\
  strip [8195] = [].
Proof.
  split; [|reflexivity].
  apply (general_punctuation_letter_verbatim
           (cell "U+2003: EM SPACE" (Some (lit "x")) [anchor [8195]])
           (anchor [8195]) (lit "U+2003: EM SPACE") (lit " EM SPACE") 8195 []);
    try reflexivity.
  vm_compute. discriminate.
Defined.

(** ** Cells that end the run *)

Lemma split_no_sep c s : ~ In c s -> split c s = [s].
Proof.
  induction s as [|x s IH]; intros H; simpl; [reflexivity|].
  destruct (x =? c) eqn:E.
  - apply N.eqb_eq in E. exfalso. apply H. now left.
  - rewrite IH; [reflexivity|]. intros Hin. apply H. now right.
Qed.

Lemma name_of_title_no_colon t : ~ In 58 t -> name_of_title t = Raise IndexError.
Proof.
  intros H. unfold name_of_title. now rewrite (split_no_sep _ _ H).
Qed.

Lemma first_colon t : In 58 t -> exists pre rest, t = pre ++ 58 :: rest /\ ~ In 58 pre.
Proof.
  induction t as [|x t IH]; intros H; [destruct H|].
  destruct (N.eq_dec x 58) as [->|Hx].
  - exists [], t. split; [reflexivity | intros []].
  - destruct H as [H|H]; [contradiction|].
    destruct (IH H) as (pre & rest & -> & Hpre).
    exists (x :: pre), rest. split; [reflexivity|].
    intros [E|E]; [now apply Hx | now apply Hpre].
Qed.

(** X7: a title is given a name exactly when it has a colon; a titled
    cell that is not "Reserved" and has no colon in its title ends each
    of the four cell loops with [IndexError]. *)
Theorem title_without_colon (td : elem) (t : pystr) :
  lookup (lit "title") (attrib td) = Some t ->
  t <> lit "Reserved" ->
  (name_of_title t = Raise IndexError <-> ~ In 58 t) /\
  (~ In 58 t ->
   resolve_table_cell td = Raise IndexError /\
   general_punctuation_cell td = Raise IndexError /\
   chess_cell td = Raise IndexError /\
   emoji_cell td = Raise IndexError).
Proof.
  intros Ht Hr. apply eqb_neq in Hr. split.
  - split; [|apply name_of_title_no_colon].
    intros E Hin. destruct (first_colon t Hin) as (pre & rest & -> & Hpre).
    unfold name_of_title in E. rewrite (split_app_sep _ _ _ Hpre) in E.
    destruct (split_before 58 rest) as [fs Hfs]. rewrite Hfs in E.
    discriminate E.
  - intros Hc. pose proof (name_of_title_no_colon t Hc) as N.
    unfold resolve_table_cell, general_punctuation_cell, chess_cell, emoji_cell,
      attrib_getitem.
    rewrite Ht. simpl. rewrite Hr, N. repeat split; reflexivity.
Qed.

Lemma title_without_colon_witness :
  resolve_table_cell (cell "LATIN CAPITAL LETTER A" (Some (lit "A")) [])
  = Raise IndexError.
Proof.
  refine (proj1 (proj2 (title_without_colon
                          (cell "LATIN CAPITAL LETTER A" (Some (lit "A")) [])
                          (lit "LATIN CAPITAL LETTER A") _ _) _)).
  - reflexivity.
  - vm_compute. discriminate.
  - vm_compute. intuition discriminate.
Defined.

(** X8: a titled cell with a colon in its title, no text and no child
    anchor or span is not passed over: each of the four cell loops ends
    on it with [AttributeError]. *)
Theorem bare_cell_aborts (td : elem) (t : pystr) :
  lookup (lit "title") (attrib td) = Some t ->
  t <> lit "Reserved" ->
  In 58 t ->
  text td = None ->
  find (lit "a") td = None ->
  find (lit "span") td = None ->
  resolve_table_cell td = Raise AttributeError /\
  general_punctuation_cell td = Raise AttributeError /\
  chess_cell td = Raise AttributeError /\
  emoji_cell td = Raise AttributeError.
Proof.
  intros Ht Hr Hc Hx Ha Hs. apply eqb_neq in Hr.
  destruct (first_colon t Hc) as (pre & rest & -> & Hpre).
  assert (exists n, name_of_title (pre ++ 58 :: rest) = Ok n) as [n N].
  { unfold name_of_title. rewrite (split_app_sep _ _ _ Hpre).
    destruct (split_before 58 rest) as [fs ->]. eexists. reflexivity. }
  unfold resolve_table_cell, general_punctuation_cell, chess_cell, emoji_cell,
    letter_of_cell, attrib_getitem.
  rewrite Ht. simpl. rewrite Hr, N, Hx, Ha, Hs. repeat split; reflexivity.
Qed.

Lemma bare_cell_aborts_witness :
  chess_cell (cell "U+2654: WHITE CHESS KING" None []) = Raise AttributeError.
Proof.
  refine (proj1 (proj2 (proj2 (bare_cell_aborts
                                 (cell "U+2654: WHITE CHESS KING" None [])
                                 (lit "U+2654: WHITE CHESS KING") _ _ _ _ _ _))));
    try reflexivity.
  - vm_compute. discriminate.
  - vm_compute. auto 10.
Defined.

(** ** The way from the landmark to the table *)

Lemma getlast_app {A : Type} (l : list A) (a : A) : getlast (l ++ [a]) = Ok a.
Proof. unfold getlast. now rewrite rev_app_distr. Qed.

(** X9: only the last match counts: the matches before it do not change
    what a lookup returns or raises. *)
Theorem locate_last_match
        (ms : list node) (m : node) (climb : option node -> result (option node)) :
  locate (ms ++ [m]) climb = locate [m] climb /\
  locate (ms ++ [m]) climb = (table <- climb (Some m);; assert_table table).
Proof.
  unfold locate. rewrite getlast_app. split; reflexivity.
Qed.

Lemma ascend_none k : ascend (S k) None = Raise AttributeError.
Proof. reflexivity. Qed.

Lemma getparent_depth n p : getparent n = Some p -> S (depth p) = depth n.
Proof.
  unfold getparent, depth. destruct (ctx n) as [|[t a x l r] up]; [discriminate|].
  now intros [= <-].
Qed.

Lemma getparent_root n : depth n = 0%nat <-> getparent n = None.
Proof.
  unfold getparent, depth. destruct (ctx n) as [|[t a x l r] up]; simpl; split;
    congruence.
Qed.

Lemma getparent_same_root n p : getparent n = Some p -> root p = root n.
Proof.
  unfold getparent, root. destruct n as [f [|[t a x l r] up]]; simpl; [discriminate|].
  now intros [= <-].
Qed.

Lemma below_In (c : elem) (cs : list elem) (x : elem) :
  In c cs -> In x (descendants_or_self c) ->
  In x ((fix below (cs : list elem) : list elem :=
           match cs with
           | [] => []
           | c :: cs' => descendants_or_self c ++ below cs'
           end) cs).
Proof.
  induction cs as [|c' cs IH]; intros Hc Hx; [destruct Hc|].
  apply in_or_app. destruct Hc as [->|Hc]; [now left | right; now apply IH].
Qed.

Lemma descendants_of_child (e c x : elem) :
  In c (children e) -> In x (descendants_or_self c) -> In x (descendants_or_self e).
Proof.
  intros Hc Hx. destruct e as [t a tx cs]. simpl in Hc. simpl. right.
  now apply below_In with (c := c).
Qed.

Lemma descendants_self (e : elem) : In e (descendants_or_self e).
Proof. destruct e. simpl. now left. Qed.

Lemma getparent_holds n p x :
  getparent n = Some p ->
  In x (descendants_or_self (focus n)) -> In x (descendants_or_self (focus p)).
Proof.
  unfold getparent. destruct (ctx n) as [|[t a tx l r] up]; [discriminate|].
  intros [= <-]. simpl focus. apply descendants_of_child. simpl.
  apply in_or_app. right. now left.
Qed.

(** The three ways a fixed ascent can end. *)
Lemma ascend_spec k : forall n,
  (k <= depth n)%nat /\
  (exists p, ascend k (Some n) = Ok (Some p) /\
             (depth p + k = depth n)%nat /\ root p = root n /\
             forall x, In x (descendants_or_self (focus n)) ->
                       In x (descendants_or_self (focus p)))
  \/ (k = S (depth n) /\ ascend k (Some n) = Ok None)
  \/ ((k > S (depth n))%nat /\ ascend k (Some n) = Raise AttributeError).
Proof.
  induction k as [|k IH]; intros n.
  - left. split; [lia|]. exists n. simpl. repeat split; auto.
  - simpl. destruct (getparent n) as [p|] eqn:E.
    + pose proof (getparent_depth n p E) as Hd.
      destruct (IH p) as [[Hle (q & Hq & Hdq & Hr & Hin)] | [[Hk Hq] | [Hk Hq]]].
      * left. split; [lia|]. exists q. split; [exact Hq|]. split; [lia|].
        split; [now rewrite Hr, (getparent_same_root n p E)|].
        intros x Hx. apply Hin. now apply (getparent_holds n p).
      * right. left. split; [lia | exact Hq].
      * right. right. split; [lia | exact Hq].
    + apply getparent_root in E. destruct k as [|k'].
      * right. left. split; [lia | reflexivity].
      * right. right. split; [lia | reflexivity].
Qed.

(** X10: a landmark with fewer than [k] elements above it ends a lookup
    that climbs [k] levels with [AttributeError], not with the failed
    assertion: the climb arrives at [None]. *)
Theorem landmark_too_shallow (ms : list node) (landmark : node) (k : nat) :
  getlast ms = Ok landmark ->
  (depth landmark < k)%nat ->
  locate ms (ascend k) = Raise AttributeError.
Proof.
  intros Hl Hd. unfold locate. rewrite Hl. simpl.
  destruct (ascend_spec k landmark) as [[Hle _] | [[_ ->] | [_ ->]]];
    [lia | reflexivity | reflexivity].
Qed.

Lemma landmark_too_shallow_witness :
  title_anchor_table shallow_page (lit "Test Category") = Raise AttributeError.
Proof.
  destruct (getlast (select_a_title shallow_page (lit "Test Category")))
    as [l|] eqn:E;
    [|vm_compute in E; discriminate E].
  apply (landmark_too_shallow _ l 5 E).
  vm_compute in E. injection E as <-. vm_compute. lia.
Defined.

Lemma elem_induction (P : elem -> Prop) :
  (forall t a x cs, Forall P cs -> P (Elem t a x cs)) -> forall e, P e.
Proof.
  intros H. fix IH 1. intros [t a x cs]. apply H.
  induction cs as [|c cs IHcs]; constructor; [apply IH | exact IHcs].
Qed.

Lemma below_nodes t a x up (cs : list elem) (n : node) :
  forall cs' l,
    rev l ++ cs' = cs ->
    Forall (fun c => forall up n, In n (nodes_from up c) -> root n = plug c up) cs' ->
    In n ((fix below (l : list elem) (cs : list elem) : list node :=
             match cs with
             | [] => []
             | c :: cs' =>
                 nodes_from (Frame t a x l cs' :: up) c ++ below (c :: l) cs'
             end) l cs') ->
    root n = plug (Elem t a x cs) up.
Proof.
  induction cs' as [|c cs' IH]; intros l Hl Hall Hin; [destruct Hin|].
  inversion Hall as [|? ? Hc Hrest]; subst.
  apply in_app_or in Hin as [Hin|Hin].
  - rewrite (Hc _ _ Hin). reflexivity.
  - apply (IH (c :: l)); [|exact Hrest|exact Hin].
    simpl. now rewrite <- app_assoc.
Qed.

Lemma nodes_from_root e : forall up n, In n (nodes_from up e) -> root n = plug e up.
Proof.
  induction e as [t a x cs IH] using elem_induction. intros up n Hin.
  simpl in Hin. destruct Hin as [<-|Hin]; [reflexivity|].
  now apply (below_nodes t a x up cs n cs []).
Qed.

Lemma plug_holds (f : elem) (fs : list frame) (x : elem) :
  In x (descendants_or_self f) -> In x (descendants_or_self (plug f fs)).
Proof.
  revert f. induction fs as [|[t a tx l r] fs IH]; intros f H; [exact H|].
  simpl. apply IH. apply (descendants_of_child _ f); [|exact H].
  simpl. apply in_or_app. right. now left.
Qed.

Lemma locate_in_page (d : elem) (p : node -> bool) (k : nat) (t : node) :
  locate (filter p (nodes d)) (ascend k) = Ok t ->
  tag (focus t) = lit "table" /\
  root t = d /\
  (forall x, In x (descendants_or_self (focus t)) ->
             In x (descendants_or_self d)) /\
  exists landmark,
    getlast (filter p (nodes d)) = Ok landmark /\
    In landmark (nodes d) /\ p landmark = true /\
    depth landmark = (depth t + k)%nat /\
    In (focus landmark) (descendants_or_self (focus t)).
Proof.
  unfold locate.
  destruct (getlast (filter p (nodes d))) as [l|] eqn:El; simpl; [|discriminate].
  destruct (getlast_ok _ _ El) as [ms' Hms].
  assert (In l (filter p (nodes d))) as Hin
    by (rewrite Hms; apply in_or_app; right; now left).
  apply filter_In in Hin as [Hnode Hp].
  destruct (ascend_spec k l) as [[_ (q & Hq & Hd & Hr & Hx)] | [[_ Hq] | [_ Hq]]];
    rewrite Hq; simpl; try discriminate.
  intros H. apply assert_table_ok in H as [[= ->] Ht].
  assert (root t = d) as Hroot
    by (rewrite Hr; exact (nodes_from_root d [] l Hnode)).
  split; [exact Ht|]. split; [exact Hroot|]. split.
  - intros x Hin. rewrite <- Hroot. now apply plug_holds.
  - exists l. repeat split; auto. apply Hx, descendants_self.
Qed.

(** X11: a lookup that selects among the nodes of a page and climbs [k]
    levels returns, when it returns, a table of that very page (all its
    elements are elements of the page), with the landmark inside it, [k]
    levels down. *)
Theorem located_table_holds_landmark
        (d : elem) (p : node -> bool) (k : nat) (t : node) :
  locate (filter p (nodes d)) (ascend k) = Ok t ->
  tag (focus t) = lit "table" /\
  root t = d /\
  (forall x, In x (descendants_or_self (focus t)) ->
             In x (descendants_or_self d)) /\
  exists landmark,
    getlast (filter p (nodes d)) = Ok landmark /\
    In landmark (nodes d) /\ p landmark = true /\
    depth landmark = (depth t + k)%nat /\
    In (focus landmark) (descendants_or_self (focus t)).
Proof. apply locate_in_page. Qed.

Lemma located_table_holds_landmark_witness :
  exists t,
    resolve_table_landmark test_page (lit "Test Category") = Ok t /\
    root t = test_page /\ depth t = 2%nat.
Proof.
  destruct (resolve_table_landmark test_page (lit "Test Category")) as [t|] eqn:E;
    [|vm_compute in E; discriminate E].
  exists t. split; [reflexivity|]. split.
  - exact (proj1 (proj2 (located_table_holds_landmark test_page _ 5 t E))).
  - vm_compute in E. injection E as <-. reflexivity.
Defined.

(** ** The landmark cell of the Emoji page *)

Lemma collect_In f l es x :
  collect f l = Ok es -> In x l ->
  exists r, f x = Ok r /\ forall e, r = Some e -> In e es.
Proof.
  revert es. induction l as [|y l IH]; intros es H Hin; [destruct Hin|].
  simpl in H. destruct (f y) as [r|] eqn:Fy; simpl in H; [|discriminate].
  destruct (collect f l) as [es'|]; simpl in H; [|discriminate].
  injection H as <-. destruct Hin as [->|Hin].
  - exists r. split; [exact Fy|]. intros e ->. now left.
  - destruct (IH es' eq_refl Hin) as (r' & Hr & He).
    exists r'. split; [exact Hr|]. intros e Hre. specialize (He e Hre).
    destruct r; [now right | exact He].
Qed.

Lemma attr_is_has_attr k v e : attr_is k v e = true -> has_attr k e = true.
Proof.
  unfold attr_is, has_attr. now destruct (lookup k (attrib e)).
Qed.

Lemma for_cells_collect t cell v st st' :
  for_cells t cell v st = Ok st' ->
  exists es,
    collect cell (select_td_with_title (focus t)) = Ok es /\
    store st' v = store st v ++ es.
Proof.
  intros H. unfold for_cells in H.
  pose proof (for_each_collect cell v (cell_step cell v) (fun _ _ => eq_refl)
                (select_td_with_title (focus t)) st) as C.
  destruct (collect cell (select_td_with_title (focus t))) as [es|ex].
  - destruct C as (s2 & Hrun & Hv & _). rewrite Hrun in H. injection H as <-.
    now exists es.
  - rewrite C in H. discriminate H.
Qed.

Lemma emoji_block_copyright e st0 st :
  emoji_block e st0 = Ok st ->
  exists letter, In (lit "COPYRIGHT SIGN", letter) (store st emoji_symbols).
Proof.
  unfold emoji_block.
  destruct (emoji_table e) as [t|] eqn:T; simpl; [|discriminate].
  destruct (for_cells _ _ _ _) as [s1|] eqn:F; simpl; [|discriminate].
  intros [= <-]. simpl.
  apply locate_in_page in T as (_ & _ & _ & l & _ & _ & Hp & _ & Hin).
  apply andb_true_iff in Hp as [Htd Htitle].
  apply for_cells_collect in F as (es & Hes & Hv).
  rewrite Hv, store_new_list_same. simpl.
  assert (In (focus l) (select_td_with_title (focus t))) as Hcell.
  { apply filter_In. split; [exact Hin|].
    now rewrite Htd, (attr_is_has_attr _ _ _ Htitle). }
  destruct (collect_In _ _ _ _ Hes Hcell) as (r & Hr & He).
  apply attr_is_lookup in Htitle.
  unfold emoji_cell, attrib_getitem in Hr. rewrite Htitle in Hr.
  change (eqb (lit "U+00A9: COPYRIGHT SIGN") (lit "Reserved")) with false in Hr.
  change (name_of_title (lit "U+00A9: COPYRIGHT SIGN"))
    with (@Ok pystr (lit "COPYRIGHT SIGN")) in Hr.
  cbn [bind] in Hr.
  destruct (if falsy (text (focus l)) then text_m (find (lit "a") (focus l))
            else Ok (text (focus l))) as [x|]; cbn [bind] in Hr; [|discriminate].
  destruct (strip_m x) as [letter|]; cbn [bind] in Hr; [|discriminate].
  injection Hr as <-. exists letter. now apply He.
Qed.

Lemma scrape_ends_with_emoji d e st :
  scrape d e = Ok st -> exists s, emoji_block e s = Ok st.
Proof.
  intros H. unfold scrape in H. cbv zeta in H.
  repeat match type of H with
         | bind ?m _ = Ok _ =>
             let s := fresh "s" in
             destruct m as [s|]; [|discriminate H]; cbn [bind] in H
         end.
  eexists. exact H.
Qed.

(** X12: the landmark of the Emoji page is itself one of the cells the
    loop walks, so a finished run always shows an entry named "COPYRIGHT
    SIGN" under "Emojis". *)
Theorem copyright_sign_listed (d e : elem) (st : state) :
  scrape d e = Ok st ->
  exists es letter,
    In (lit "Emojis", es) (items st) /\
    In (lit "COPYRIGHT SIGN", letter) es.
Proof.
  intros H. pose proof (scrape_characters d e st H) as Hc.
  apply scrape_ends_with_emoji in H as [s H].
  apply emoji_block_copyright in H as [letter H].
  exists (store st emoji_symbols), letter. split; [|exact H].
  unfold items. rewrite Hc. unfold catalog. simpl.
  repeat (first [left; reflexivity | right]).
Qed.

Lemma copyright_sign_listed_witness :
  exists st es letter,
    scrape base_page emoji_page = Ok st /\
    In (lit "Emojis", es) (items st) /\
    In (lit "COPYRIGHT SIGN", letter) es.
Proof.
  assert (finished (scrape base_page emoji_page) = true) as F
    by (vm_compute; reflexivity).
  destruct (scrape base_page emoji_page) as [st|] eqn:E; [|discriminate F].
  destruct (copyright_sign_listed base_page emoji_page st E) as (es & letter & H).
  exists st, es, letter. split; [reflexivity | exact H].
Defined.

(** ** The row loops *)

Lemma collect_every f l es :
  collect (every f) l = Ok es -> Forall2 (fun x e => f x = Ok e) l es.
Proof.
  revert es. induction l as [|x l IH]; intros es; simpl.
  - intros [= <-]. constructor.
  - unfold every at 1. destruct (f x) as [e|] eqn:Fx; simpl; [|discriminate].
    destruct (collect (every f) l) as [es'|]; simpl; [|discriminate].
    intros [= <-]. constructor; [exact Fx | now apply IH].
Qed.

Lemma row_loop_collect (f : elem -> result entry) v l st st' :
  for_each l (fun tr st => e <- f tr;; Ok (append v e st)) st = Ok st' ->
  exists es,
    Forall2 (fun x e => f x = Ok e) l es /\ store st' v = store st v ++ es.
Proof.
  intros H.
  pose proof (for_each_collect (every f) v
                (fun tr st => e <- f tr;; Ok (append v e st))) as C.
  specialize (C (fun x s => ltac:(unfold cell_step, every; destruct (f x); reflexivity))
                l st).
  destruct (collect (every f) l) as [es|ex] eqn:Ec.
  - destruct C as (s2 & Hrun & Hv & _). rewrite Hrun in H. injection H as <-.
    exists es. split; [now apply collect_every | exact Hv].
  - rewrite C in H. discriminate H.
Qed.

Lemma length_removelast' {A : Type} (l : list A) :
  List.length (removelast l) = pred (List.length l).
Proof.
  induction l as [|a [|b l] IH]; try reflexivity.
  change (S (List.length (removelast (b :: l))) = S (List.length l)).
  rewrite IH. reflexivity.
Qed.

Lemma slice_1_m1_length {A : Type} (l : list A) :
  List.length (slice_1_m1 l) = (List.length l - 2)%nat.
Proof.
  unfold slice_1_m1. rewrite length_removelast'. destruct l as [|a l]; simpl; lia.
Qed.

(** X13: the Unicode symbols block never looks at the first and the last
    row of its rows: with two rows or fewer it ends normally with an
    empty list, and when it ends normally its list has one entry for
    every other row, in row order, two fewer than there are rows. *)
Theorem unicode_symbols_one_per_row (d : elem) (st : state) :
  ((List.length (unicode_symbols_rows d) <= 2)%nat ->
   exists st', unicode_symbols_block d st = Ok st' /\
               store st' unicode_symbols = []) /\
  (forall st',
      unicode_symbols_block d st = Ok st' ->
      Forall2 (fun tr e => unicode_symbols_row tr = Ok e)
              (slice_1_m1 (unicode_symbols_rows d)) (store st' unicode_symbols) /\
      List.length (store st' unicode_symbols)
      = (List.length (unicode_symbols_rows d) - 2)%nat).
Proof.
  unfold unicode_symbols_block.
  change (flat_map select_tr (select_id d (lit "Table_Unicode_symbols")))
    with (unicode_symbols_rows d).
  split.
  - intros Hlen.
    assert (slice_1_m1 (unicode_symbols_rows d) = []) as ->.
    { apply length_zero_iff_nil. rewrite slice_1_m1_length. lia. }
    simpl. eexists. split; [reflexivity|]. reflexivity.
  - intros st'.
    destruct (for_each _ _ _) as [s1|] eqn:E; simpl; [|discriminate].
    intros [= <-]. simpl.
    apply row_loop_collect in E as (es & Hes & Hv).
    rewrite store_new_list_same in Hv. simpl in Hv. rewrite Hv.
    split; [exact Hes|].
    rewrite <- (Forall2_length Hes). apply slice_1_m1_length.
Qed.

Lemma unicode_symbols_one_per_row_witness :
  exists st',
    unicode_symbols_block base_page initial = Ok st' /\
    List.length (store st' unicode_symbols) = 1%nat /\
    List.length (unicode_symbols_rows base_page) = 3%nat.
Proof.
  destruct (unicode_symbols_block base_page initial) as [st'|] eqn:E;
    [|vm_compute in E; discriminate E].
  exists st'. split; [reflexivity|]. split; [|reflexivity].
  rewrite (proj2 (proj2 (unicode_symbols_one_per_row base_page initial) st' E)).
  reflexivity.
Defined.

Lemma getnext_same_root n s : getnext n = Some s -> root s = root n.
Proof.
  unfold getnext, root. destruct n as [f [|[t a x l [|c r]] up]]; simpl;
    try discriminate.
  intros [= <-]. simpl. now rewrite <- app_assoc.
Qed.

(** X14: the Dingbats table is the element right after the parent of the
    landmark anchor, in the same page; the block skips its first row
    only, and when it ends normally its list has one entry for every
    other row, in row order. *)
Theorem dingbats_one_per_row (d : elem) (st st' : state) :
  dingbats_block d st = Ok st' ->
  exists landmark p t,
    getlast (select_a_title d (lit "Dingbats (Unicode block)")) = Ok landmark /\
    getparent landmark = Some p /\ getnext p = Some t /\
    dingbats_table d = Ok t /\ tag (focus t) = lit "table" /\ root t = d /\
    Forall2 (fun tr e => dingbats_row tr = Ok e)
            (tl (select_tr (focus t))) (store st' dingbats_symbols) /\
    List.length (store st' dingbats_symbols)
    = pred (List.length (select_tr (focus t))).
Proof.
  unfold dingbats_block.
  destruct (dingbats_table d) as [t|] eqn:T; simpl; [|discriminate].
  destruct (for_each _ _ _) as [s1|] eqn:E; simpl; [|discriminate].
  intros [= <-]. simpl.
  apply row_loop_collect in E as (es & Hes & Hv).
  rewrite store_new_list_same in Hv. simpl in Hv. rewrite Hv.
  pose proof T as T'. unfold dingbats_table, locate in T'.
  destruct (getlast _) as [l|] eqn:El; simpl in T'; [|discriminate].
  destruct (getlast_ok _ _ El) as [ms' Hms].
  assert (In l (nodes d)) as Hnode.
  { assert (In l (select_a_title d (lit "Dingbats (Unicode block)"))) as Hin
      by (rewrite Hms; apply in_or_app; right; now left).
    now apply filter_In in Hin as [Hin _]. }
  destruct (getparent l) as [p|] eqn:Ep; simpl in T'; [|discriminate].
  destruct (getnext p) as [t'|] eqn:En; [|discriminate].
  apply assert_table_ok in T' as [[= ->] Ht].
  exists l, p, t. repeat split; auto.
  - rewrite (getnext_same_root _ _ En), (getparent_same_root _ _ Ep).
    exact (nodes_from_root d [] l Hnode).
  - rewrite <- (Forall2_length Hes). now destruct (select_tr (focus t)).
Qed.

Lemma dingbats_one_per_row_witness :
  exists st' t,
    dingbats_block base_page initial = Ok st' /\
    dingbats_table base_page = Ok t /\
    List.length (store st' dingbats_symbols)
    = pred (List.length (select_tr (focus t))).
Proof.
  destruct (dingbats_block base_page initial) as [st'|] eqn:E;
    [|vm_compute in E; discriminate E].
  destruct (dingbats_one_per_row base_page initial st' E)
    as (l & p & t & _ & _ & _ & Ht & _ & _ & _ & Hlen).
  exists st', t. split; [reflexivity|]. split; [exact Ht | exact Hlen].
Defined.

(** ** Title-casing and the dict *)

Lemma lower1_to_lower c :
  is_ascii c = true -> exists c', to_lower_full c = [c'] /\ lower1 c' = lower1 c.
Proof.
  unfold is_ascii, to_lower_full, lower1, is_upper_ascii.
  intros H. apply N.ltb_lt in H.
  destruct (65 <=? c) eqn:A; destruct (c <=? 90) eqn:B; simpl;
    eexists; (split; [reflexivity|]); code_point_cases.
Qed.

Lemma lower1_to_title c :
  is_ascii c = true -> exists c', to_title_full c = [c'] /\ lower1 c' = lower1 c.
Proof.
  unfold is_ascii, to_title_full, lower1, is_upper_ascii, is_lower_ascii.
  intros H. apply N.ltb_lt in H.
  assert ((c =? 496) = false) as -> by (apply N.eqb_neq; lia).
  destruct (97 <=? c) eqn:A; destruct (c <=? 122) eqn:B; simpl;
    eexists; (split; [reflexivity|]); code_point_cases.
Qed.

Lemma do_title_case_only s :
  forallb is_ascii s = true ->
  forall p, map lower1 (do_title p s) = map lower1 s.
Proof.
  induction s as [|c s IH]; intros H p; [reflexivity|].
  simpl in H. apply andb_true_iff in H as [Hc Hs]. simpl.
  destruct p.
  - destruct (lower1_to_lower c Hc) as (c' & -> & E). simpl. now rewrite E, IH.
  - destruct (lower1_to_title c Hc) as (c' & -> & E). simpl. now rewrite E, IH.
Qed.

(** X15: on a name of Basic Latin characters title-casing changes the
    case of letters and nothing else: the written name has the length of
    the name and is the same string once both are lower-cased. *)
Theorem title_changes_case_only (s : pystr) :
  forallb is_ascii s = true ->
  map lower1 (title s) = map lower1 s /\
  List.length (title s) = List.length s.
Proof.
  intros H. pose proof (do_title_case_only s H false) as E.
  split; [exact E|].
  rewrite <- (length_map lower1 (title s)), <- (length_map lower1 s).
  unfold title. now rewrite E.
Qed.

Lemma title_changes_case_only_witness :
  title (lit "LATIN CAPITAL LETTER A") = lit "Latin Capital Letter A" /\
  map lower1 (title (lit "LATIN CAPITAL LETTER A"))
  = map lower1 (lit "LATIN CAPITAL LETTER A").
Proof.
  split; [reflexivity|].
  apply (title_changes_case_only (lit "LATIN CAPITAL LETTER A")). reflexivity.
Defined.

(** X16: [characters[k] = v] makes [k] hold [v] and leaves every other
    key with what it held; a key that was there keeps its place in the
    order, a new key goes to the end. *)
Theorem dict_set_get (k : pystr) (v : var) (c : list (pystr * var)) (k' : pystr) :
  dict_get k' (dict_set k v c)
  = (if eqb k k' then Some v else dict_get k' c) /\
  map fst (dict_set k v c)
  = match dict_get k c with
    | Some _ => map fst c
    | None => map fst c ++ [k]
    end.
Proof.
  split.
  - induction c as [|[k0 v0] c IH]; simpl.
    + destruct (eqb k k') eqn:E; [reflexivity|reflexivity].
    + destruct (eqb k0 k) eqn:E0; simpl.
      * apply eqb_eq in E0. subst k0. destruct (eqb k k'); reflexivity.
      * destruct (eqb k0 k') eqn:E1; [|exact IH].
        apply eqb_eq in E1. subst k0.
        assert (eqb k k' = false) as ->; [|reflexivity].
        apply eqb_neq. apply eqb_neq in E0. congruence.
  - induction c as [|[k0 v0] c IH]; simpl; [reflexivity|].
    destruct (eqb k0 k) eqn:E0; simpl; [reflexivity|].
    rewrite IH. now destruct (dict_get k c).
Qed.

(** ** What a finished run needed *)

Lemma entries_landmark d title es :
  entries d title = Ok es -> select_b_title d (lit title) <> [].
Proof.
  intros H E. unfold entries, resolve_table_landmark, locate in H.
  rewrite E in H. discriminate H.
Qed.

Lemma general_punctuation_block_landmark d s s' :
  general_punctuation_block d s = Ok s' ->
  select_a_title d (lit "General Punctuation") <> [].
Proof.
  intros H E. unfold general_punctuation_block in H.
  rewrite (title_anchor_block_no_match _ _ _ _ E) in H. discriminate H.
Qed.

Lemma superscripts_block_landmark d s s' :
  superscripts_block d s = Ok s' ->
  select_b_title d (lit "Superscripts and Subscripts") <> [].
Proof.
  intros H E. unfold superscripts_block, superscripts_loop in H.
  rewrite (for_resolve_table_no_match _ _ _ _ E) in H. discriminate H.
Qed.

Lemma dingbats_block_landmark d s s' :
  dingbats_block d s = Ok s' ->
  select_a_title d (lit "Dingbats (Unicode block)") <> [].
Proof.
  intros H E. rewrite (dingbats_block_no_match _ _ E) in H. discriminate H.
Qed.

Lemma chess_block_landmark d s s' :
  chess_block d s = Ok s' ->
  select_title d (lit "U+2654: WHITE CHESS KING") <> [].
Proof.
  intros H E. rewrite (chess_block_no_match _ _ E) in H. discriminate H.
Qed.

Lemma emoji_block_landmark e s s' :
  emoji_block e s = Ok s' ->
  select_td_title e (lit "U+00A9: COPYRIGHT SIGN") <> [].
Proof.
  intros H E. rewrite (emoji_block_no_match _ _ E) in H. discriminate H.
Qed.

(** Split the run at its next block and keep the landmark it found. *)
Ltac next_landmark H :=
  match type of H with
  | bind ?m _ = Ok _ =>
      let s := fresh "s" in
      let E := fresh "E" in
      destruct m as [s|] eqn:E; [|discriminate H];
      cbn [bind] in H;
      first [ apply general_punctuation_block_landmark in E
            | apply superscripts_block_landmark in E
            | apply dingbats_block_landmark in E
            | apply chess_block_landmark in E
            | clear E ]
  end.

(** X17: a run that comes to its end found every landmark: no selection
    of a landmark was empty, on either page. *)
Theorem finished_run_found_every_landmark (d e : elem) (st : state) :
  scrape d e = Ok st ->
  select_a_title d (lit "General Punctuation") <> [] /\
  select_b_title d (lit "Superscripts and Subscripts") <> [] /\
  Forall (fun vt => select_b_title d (lit (snd vt)) <> []) plain_lists /\
  select_a_title d (lit "Dingbats (Unicode block)") <> [] /\
  select_title d (lit "U+2654: WHITE CHESS KING") <> [] /\
  select_td_title e (lit "U+00A9: COPYRIGHT SIGN") <> [].
Proof.
  intros H. pose proof (scrape_lists d e st H) as L.
  unfold scrape in H. cbv zeta in H.
  repeat next_landmark H.
  apply emoji_block_landmark in H.
  repeat split; try assumption.
  apply Forall_forall. intros vt Hin. rewrite Forall_forall in L.
  exact (entries_landmark d (snd vt) _ (L vt Hin)).
Qed.

Lemma finished_run_found_every_landmark_witness :
  exists st,
    scrape base_page emoji_page = Ok st /\
    select_td_title emoji_page (lit "U+00A9: COPYRIGHT SIGN") <> [].
Proof.
  assert (finished (scrape base_page emoji_page) = true) as F
    by (vm_compute; reflexivity).
  destruct (scrape base_page emoji_page) as [st|] eqn:E; [|discriminate F].
  exists st. split; [reflexivity|].
  apply (finished_run_found_every_landmark base_page emoji_page st E).
Defined.

(** ** The cell bodies side by side *)

(** X18: on a cell with non-empty direct text the chess body, the emoji
    body and the body of [resolve_table] agree: the same entry, the same
    passing over, or the same exception; no child of the cell is read. *)
Theorem cell_bodies_agree_on_text (td : elem) :
  falsy (text td) = false ->
  chess_cell td = plain_cell td /\ emoji_cell td = plain_cell td.
Proof.
  intros H.
  unfold chess_cell, emoji_cell, plain_cell, resolve_table_cell, letter_of_cell.
  rewrite H.
  destruct (attrib_getitem td (lit "title")) as [t|]; simpl; [|split; reflexivity].
  destruct (eqb t (lit "Reserved")); simpl; [split; reflexivity|].
  destruct (name_of_title t) as [n|]; simpl; [|split; reflexivity].
  destruct (strip_m (text td)) as [l|]; simpl; split; reflexivity.
Qed.

Lemma cell_bodies_agree_on_text_witness :
  chess_cell latin_a_cell = Ok (Some (lit "LATIN CAPITAL LETTER A", lit "A")) /\
  emoji_cell latin_a_cell = plain_cell latin_a_cell.
Proof.
  split; [reflexivity|].
  apply (cell_bodies_agree_on_text latin_a_cell). reflexivity.
Defined.
